(** * Maintenance scripts of the textbook site: a shallow embedding

    The repository is a handful of Python scripts that read one HTML
    file, transform its text with regular expressions and write it back.
    This development embeds the scripts' text transformations as Rocq
    functions and states the properties of the specification over them.

    - [PyStr]  : Python [str] values and the [str] methods the scripts use.
    - [Re]     : the fragment of Python's [re] module the scripts use, as a
                 backtracking matcher with the drivers [search], [match],
                 [sub], [split] and [finditer].
    - [CheckDepth], [DebugFile] : the depth auditors.
    - [ExtractChapterText]      : [extract_article_text].
    - [RebuildKap2]             : the segmenter script.
    - [FixKap1]                 : the heading extraction of [fix_html].
    - [CleanGlossary]           : [clean_file]. *)

From Stdlib Require Import List NArith ZArith Bool Arith Lia Ascii String.
From Stdlib Require Import Permutation DecimalString.
Import ListNotations.

Set Implicit Arguments.

(* ================================================================== *)
(** * Python strings *)
(* ================================================================== *)

Module PyStr.

(** A Python [str] is a sequence of Unicode code points. *)
Definition char := N.
Definition pystr := list char.

(** An ASCII literal of the source, as a [pystr]. *)
Definition str (s : string) : pystr := map N_of_ascii (list_ascii_of_string s).

(** The double quote and the newline, which the literals above cannot hold. *)
Definition dq : pystr := [34%N].
Definition nl : pystr := [10%N].
Definition NL : char := 10%N.
Definition DQ : char := 34%N.
Definition SP : char := 32%N.

(** [str.isspace] on one code point; the same set is what [\s] matches in
    a [str] pattern. *)
Definition isspace (c : char) : bool :=
  ((9 <=? c) && (c <=? 13) || (28 <=? c) && (c <=? 32)
   || (c =? 133) || (c =? 160) || (c =? 5760)
   || (8192 <=? c) && (c <=? 8202)
   || (c =? 8232) || (c =? 8233) || (c =? 8239) || (c =? 8287)
   || (c =? 12288))%N.

(** [s.startswith(p)]. *)
Fixpoint startswith (p s : pystr) : bool :=
  match p, s with
  | [], _ => true
  | a :: p', b :: s' => (a =? b)%N && startswith p' s'
  | _ :: _, [] => false
  end.

(** [s.endswith(p)]. *)
Definition endswith (p s : pystr) : bool := startswith (rev p) (rev s).

(** [p in s]. *)
Fixpoint contains (p s : pystr) : bool :=
  startswith p s || match s with [] => false | _ :: s' => contains p s' end.

(** [s.count(p)]: occurrences of [p], scanned left to right without
    overlap.  [skip] is the number of characters still covered by the
    occurrence found last. *)
Fixpoint count_from (p s : pystr) (skip : nat) : nat :=
  match s with
  | [] => if startswith p [] then 1 else 0
  | _ :: s' =>
      match skip with
      | S k => count_from p s' k
      | O => if startswith p s
             then S (count_from p s' (Nat.pred (List.length p)))
             else count_from p s' 0
      end
  end.
Definition count (p s : pystr) : nat := count_from p s 0.

(** [s.replace(old, new)]. *)
Fixpoint replace_from (old new s : pystr) (skip : nat) : pystr :=
  match s with
  | [] => if startswith old [] then new else []
  | c :: s' =>
      match skip with
      | S k => replace_from old new s' k
      | O => if startswith old s
             then new ++ match old with
                         | [] => c :: replace_from old new s' 0
                         | _ :: old' => replace_from old new s' (List.length old')
                         end
             else c :: replace_from old new s' 0
      end
  end.
Definition replace (old new s : pystr) : pystr := replace_from old new s 0.

(** [s.lstrip()], [s.rstrip()], [s.strip()]. *)
Fixpoint lstrip (s : pystr) : pystr :=
  match s with
  | c :: s' => if isspace c then lstrip s' else s
  | [] => []
  end.
Definition rstrip (s : pystr) : pystr := rev (lstrip (rev s)).
Definition strip (s : pystr) : pystr := rstrip (lstrip s).

(** [f.readlines()]: the lines of a text, each keeping its newline. *)
Fixpoint readlines_from (cur : pystr) (s : pystr) : list pystr :=
  match s with
  | [] => match cur with [] => [] | _ => [rev cur] end
  | c :: s' => if (c =? NL)%N then rev (c :: cur) :: readlines_from [] s'
               else readlines_from (c :: cur) s'
  end.
Definition readlines (s : pystr) : list pystr := readlines_from [] s.

(** Equality of strings, [a == b]. *)
Fixpoint eqb (a b : pystr) : bool :=
  match a, b with
  | [], [] => true
  | x :: a', y :: b' => (x =? y)%N && eqb a' b'
  | _, _ => false
  end.

End PyStr.
Import PyStr.

(* ================================================================== *)
(** * The fragment of Python's [re] module used by the scripts *)
(* ================================================================== *)

Module Re.

(** Patterns.  Every repetition in the scripts' patterns is over a single
    character class ([.*?], [[^>]*], [\s+], ...), so [Rep] takes a class:
    [Rep greedy lo p] is [p{lo,}] (greedy) or [p{lo,}?] (lazy).  [Grp n r]
    is the capturing group number [n], [RefI n] the backreference [\n]
    of a pattern compiled with IGNORECASE, [Bol] is [^] and [Eol] is [$]
    (both without MULTILINE). *)
Inductive regex : Type :=
| Eps
| Cls (p : char -> bool)
| Seq (r1 r2 : regex)
| Alt (r1 r2 : regex)
| Rep (greedy : bool) (lo : nat) (p : char -> bool)
| Grp (n : nat) (r : regex)
| RefI (n : nat)
| Bol
| Eol.

(** ** Character classes *)

(** [.] with DOTALL, and without it. *)
Definition any : char -> bool := fun _ => true.
Definition dot : char -> bool := fun c => negb (c =? NL)%N.
(** A literal character, [[^c]], and a range [[a-b]]. *)
Definition eqc (p : char) : char -> bool := fun c => (c =? p)%N.
Definition neqc (p : char) : char -> bool := fun c => negb (c =? p)%N.
Definition range (a b : char) : char -> bool :=
  fun c => ((a <=? c) && (c <=? b))%N.

(** The simple lower-case mapping, exact on every code point whose lower
    case is an ASCII character: the letters A-Z, U+0130 (to i) and U+212A
    (to k). *)
Definition lower (c : char) : char :=
  (if (65 <=? c) && (c <=? 90) then c + 32
   else if c =? 304 then 105
   else if c =? 8490 then 107
   else c)%N.

(** The extra case variants the compiler adds to a lower-case literal:
    U+0131 for i and U+017F for s. *)
Definition extra_cases (lo : char) : list char :=
  (if lo =? 105 then [305] else if lo =? 115 then [383] else [])%N.

(** A literal character of a pattern compiled with IGNORECASE. *)
Definition ic (p : char) : char -> bool :=
  fun c => let lo := lower p in
           let lc := lower c in
           (lc =? lo)%N || existsb (N.eqb lc) (extra_cases lo).

(** A literal string, and one under IGNORECASE. *)
Definition lit (s : pystr) : regex :=
  fold_right (fun c r => Seq (Cls (eqc c)) r) Eps s.
Definition liti (s : pystr) : regex :=
  fold_right (fun c r => Seq (Cls (ic c)) r) Eps s.

(** ** The backtracking matcher *)

(** The state of one match attempt: the position in the subject, the
    text from there on, and the groups captured so far (latest first). *)
Record mstate : Type :=
  { pos : nat; rest : pystr; caps : list (nat * pystr) }.

Definition cont := mstate -> option mstate.

Fixpoint lookup (n : nat) (cs : list (nat * pystr)) : option pystr :=
  match cs with
  | [] => None
  | (k, v) :: cs' => if Nat.eqb k n then Some v else lookup n cs'
  end.

(** [p*] greedy: take as many as possible, give back one at a time. *)
Fixpoint rep_greedy (p : char -> bool) (k : cont) (i : nat) (cs : list (nat * pystr))
  (s : pystr) : option mstate :=
  match s with
  | c :: s' =>
      if p c then
        match rep_greedy p k (S i) cs s' with
        | Some r => Some r
        | None => k {| pos := i; rest := s; caps := cs |}
        end
      else k {| pos := i; rest := s; caps := cs |}
  | [] => k {| pos := i; rest := []; caps := cs |}
  end.

(** [p*?] lazy: try the rest first, take one more on failure. *)
Fixpoint rep_lazy (p : char -> bool) (k : cont) (i : nat) (cs : list (nat * pystr))
  (s : pystr) : option mstate :=
  match k {| pos := i; rest := s; caps := cs |} with
  | Some r => Some r
  | None =>
      match s with
      | c :: s' => if p c then rep_lazy p k (S i) cs s' else None
      | [] => None
      end
  end.

(** The [lo] mandatory characters of [p{lo,}], then the star. *)
Fixpoint rep_min (greedy : bool) (lo : nat) (p : char -> bool) (k : cont)
  (i : nat) (cs : list (nat * pystr)) (s : pystr) : option mstate :=
  match lo with
  | O => if greedy then rep_greedy p k i cs s else rep_lazy p k i cs s
  | S lo' =>
      match s with
      | c :: s' => if p c then rep_min greedy lo' p k (S i) cs s' else None
      | [] => None
      end
  end.

(** The text [t] at the head of [s], compared as IGNORECASE compares a
    backreference: character by character on lower-case forms. *)
Fixpoint ref_prefix (t s : pystr) : option pystr :=
  match t, s with
  | [], _ => Some s
  | a :: t', b :: s' =>
      if (lower a =? lower b)%N then ref_prefix t' s' else None
  | _ :: _, [] => None
  end.

Fixpoint rmatch (r : regex) (k : cont) (st : mstate) : option mstate :=
  match r with
  | Eps => k st
  | Cls p =>
      match rest st with
      | c :: s' =>
          if p c then k {| pos := S (pos st); rest := s'; caps := caps st |}
          else None
      | [] => None
      end
  | Seq r1 r2 => rmatch r1 (rmatch r2 k) st
  | Alt r1 r2 =>
      match rmatch r1 k st with
      | Some x => Some x
      | None => rmatch r2 k st
      end
  | Rep greedy lo p => rep_min greedy lo p k (pos st) (caps st) (rest st)
  | Grp n r =>
      rmatch r
        (fun st' =>
           k {| pos := pos st'; rest := rest st';
                caps := (n, firstn (pos st' - pos st) (rest st)) :: caps st' |})
        st
  | RefI n =>
      match lookup n (caps st) with
      | Some t =>
          match ref_prefix t (rest st) with
          | Some s' => k {| pos := pos st + List.length t; rest := s';
                            caps := caps st |}
          | None => None
          end
      | None => None
      end
  | Bol => if Nat.eqb (pos st) 0 then k st else None
  | Eol =>
      match rest st with
      | [] => k st
      | [c] => if (c =? NL)%N then k st else None
      | _ => None
      end
  end.

(** ** Match objects and the drivers *)

Record match_obj : Type :=
  { m_start : nat; m_len : nat; m_group0 : pystr;
    m_caps : list (nat * pystr) }.

(** [m.group(n)] for [n >= 1]; [None] when the group took no part. *)
Definition group (m : match_obj) (n : nat) : option pystr := lookup n (m_caps m).
(** [m.group(n)] of a group that takes part in every match. *)
Definition group_or_empty (m : match_obj) (n : nat) : pystr :=
  match group m n with Some g => g | None => [] end.

(** One attempt at position [i], where [s] is the subject from [i] on.
    With [must_advance] an empty match is refused (and backtracked
    into), as the drivers ask right after an empty match. *)
Definition try_at (r : regex) (i : nat) (s : pystr) (must_advance : bool)
  : option match_obj :=
  match rmatch r
          (fun st => if must_advance && Nat.eqb (pos st) i then None else Some st)
          {| pos := i; rest := s; caps := [] |} with
  | Some st => Some {| m_start := i; m_len := pos st - i;
                       m_group0 := firstn (pos st - i) s;
                       m_caps := caps st |}
  | None => None
  end.

(** [re.match(r, s)]. *)
Definition match_ (r : regex) (s : pystr) : option match_obj := try_at r 0 s false.

(** [re.search(r, s)]: the first position with a match. *)
Fixpoint search_from (r : regex) (i : nat) (s : pystr) : option match_obj :=
  match try_at r i s false with
  | Some m => Some m
  | None =>
      match s with
      | [] => None
      | _ :: s' => search_from r (S i) s'
      end
  end.
Definition search (r : regex) (s : pystr) : option match_obj := search_from r 0 s.

(** The iteration shared by [sub], [split] and [finditer]: the subject cut
    into the matches found, left to right and without overlap, and the
    characters between them.  [skip] is the number of characters still
    covered by the match found last.  After an empty match the same
    position is tried once more for a match that advances. *)
Inductive piece : Type :=
| Chr (c : char)
| Mat (m : match_obj).

Fixpoint scan (r : regex) (i : nat) (s : pystr) (skip : nat) : list piece :=
  match s with
  | [] =>
      match skip with
      | O => match try_at r i [] false with
             | Some m => [Mat m]
             | None => []
             end
      | S _ => []
      end
  | c :: s' =>
      match skip with
      | S k => scan r (S i) s' k
      | O =>
          match try_at r i s false with
          | None => Chr c :: scan r (S i) s' 0
          | Some m =>
              match m_len m with
              | S n => Mat m :: scan r (S i) s' n
              | O =>
                  Mat m ::
                  match try_at r i s true with
                  | Some m' => Mat m' :: scan r (S i) s' (Nat.pred (m_len m'))
                  | None => Chr c :: scan r (S i) s' 0
                  end
              end
          end
      end
  end.

(** [re.sub(r, repl, s)] with [repl] a function of the match; a template
    is the function it denotes. *)
Definition emit (repl : match_obj -> pystr) (p : piece) : pystr :=
  match p with
  | Chr c => [c]
  | Mat m => repl m
  end.
Definition sub (r : regex) (repl : match_obj -> pystr) (s : pystr) : pystr :=
  List.concat (map (emit repl) (scan r 0 s 0)).

(** [re.finditer(r, s)]. *)
Fixpoint matches_of (ps : list piece) : list match_obj :=
  match ps with
  | [] => []
  | Chr _ :: ps' => matches_of ps'
  | Mat m :: ps' => m :: matches_of ps'
  end.
Definition finditer (r : regex) (s : pystr) : list match_obj :=
  matches_of (scan r 0 s 0).

(** [re.split(r, s)] for a pattern with one capturing group: the text
    before each match, then the group, and the text after the last
    match. *)
Fixpoint split_pieces (cur : pystr) (ps : list piece) : list pystr :=
  match ps with
  | [] => [rev cur]
  | Chr c :: ps' => split_pieces (c :: cur) ps'
  | Mat m :: ps' => rev cur :: group_or_empty m 1 :: split_pieces [] ps'
  end.
Definition split (r : regex) (s : pystr) : list pystr :=
  split_pieces [] (scan r 0 s 0).

(** ** What a pattern matches

    [matches r st st'] : the pattern [r] can take the attempt from the
    state [st] to the state [st'].  The matcher above finds, among these,
    the first one in priority order on which the continuation succeeds
    ([rmatch_sound], [rmatch_complete]). *)
Inductive matches : regex -> mstate -> mstate -> Prop :=
| M_Eps st : matches Eps st st
| M_Cls p c s' i cs :
    p c = true ->
    matches (Cls p) {| pos := i; rest := c :: s'; caps := cs |}
                    {| pos := S i; rest := s'; caps := cs |}
| M_Seq r1 r2 st st1 st2 :
    matches r1 st st1 -> matches r2 st1 st2 -> matches (Seq r1 r2) st st2
| M_AltL r1 r2 st st' : matches r1 st st' -> matches (Alt r1 r2) st st'
| M_AltR r1 r2 st st' : matches r2 st st' -> matches (Alt r1 r2) st st'
| M_Rep g lo p l s' i cs :
    forallb p l = true -> lo <= List.length l ->
    matches (Rep g lo p) {| pos := i; rest := l ++ s'; caps := cs |}
                         {| pos := i + List.length l; rest := s'; caps := cs |}
| M_Grp n r st st' :
    matches r st st' ->
    matches (Grp n r) st
      {| pos := pos st'; rest := rest st';
         caps := (n, firstn (pos st' - pos st) (rest st)) :: caps st' |}
| M_RefI n t s' st :
    lookup n (caps st) = Some t -> ref_prefix t (rest st) = Some s' ->
    matches (RefI n) st
      {| pos := pos st + List.length t; rest := s'; caps := caps st |}
| M_Bol st : pos st = 0 -> matches Bol st st
| M_Eol st : rest st = [] \/ rest st = [NL] -> matches Eol st st.

(** Concatenation and alternation of patterns. *)
Declare Scope re_scope.
Delimit Scope re_scope with re.
Bind Scope re_scope with regex.
Infix ">>" := Seq (at level 61, right associativity) : re_scope.
Infix "<|>" := Alt (at level 62, right associativity) : re_scope.

End Re.

(* ================================================================== *)
(** * The depth auditors: check_depth.py and debug_file.py *)
(* ================================================================== *)

(** [has_heading line]: ['<h3>' in line or '<h4>' in line or '<h2>' in line]. *)
Definition has_heading (line : pystr) : bool :=
  contains (str "<h3>") line || contains (str "<h4>") line
  || contains (str "<h2>") line.

Definition opens_of (line : pystr) : Z := Z.of_nat (count (str "<div") line).
Definition closes_of (line : pystr) : Z := Z.of_nat (count (str "</div>") line).

Module CheckDepth.

(** One printed line: the line number, the depth reported and the
    stripped content. *)
Record heading_record := { line_num : nat; at_depth : Z; content : pystr }.

(** The loop of check_depth.py: [depth] is the running counter, [i] the
    index of [enumerate]; the result is the final depth and the records
    printed, in order. *)
Fixpoint scan (lines : list pystr) (i : nat) (depth : Z)
  : Z * list heading_record :=
  match lines with
  | [] => (depth, [])
  | line :: rest =>
      let line_num := i + 1 in
      let opens := opens_of line in
      let closes := closes_of line in
      if ((0 <? opens) || (0 <? closes))%Z then
        let old_depth := depth in
        let depth := (depth + (opens - closes))%Z in
        let (d, out) := scan rest (S i) depth in
        if has_heading line
        then (d, {| line_num := line_num; at_depth := old_depth;
                    content := strip line |} :: out)
        else (d, out)
      else if has_heading line then
        let (d, out) := scan rest (S i) depth in
        (d, {| line_num := line_num; at_depth := depth;
               content := strip line |} :: out)
      else scan rest (S i) depth
  end.

Definition check_depth (file : pystr) : Z * list heading_record :=
  scan (readlines file) 0 0%Z.

End CheckDepth.

Module DebugFile.

(** One printed line of debug_file.py:
    [line_num | old_depth -> depth | content]. *)
Record record := { line_num : nat; old_depth : Z; new_depth : Z;
                   content : pystr }.

Fixpoint scan (lines : list pystr) (i : nat) (depth : Z) : Z * list record :=
  match lines with
  | [] => (depth, [])
  | line :: rest =>
      let line_num := i + 1 in
      let opens := opens_of line in
      let closes := closes_of line in
      let old_depth := depth in
      let depth := (depth + (opens - closes))%Z in
      let (d, out) := scan rest (S i) depth in
      if negb (opens =? closes)%Z || has_heading line
      then (d, {| line_num := line_num; old_depth := old_depth;
                  new_depth := depth; content := firstn 60 (strip line) |}
             :: out)
      else (d, out)
  end.

Definition debug_file (file : pystr) : Z * list record :=
  scan (readlines file) 0 0%Z.

End DebugFile.

(* ================================================================== *)
(** * Files and the outcome of a script *)
(* ================================================================== *)

(** What a script sees of the machine: the files (by path) and the lines
    printed so far. *)
Record world : Type :=
  { disk : pystr -> option pystr; stdout : list pystr }.

Definition print (line : pystr) (w : world) : world :=
  {| disk := disk w; stdout := stdout w ++ [line] |}.

Definition write (path data : pystr) (w : world) : world :=
  {| disk := fun p => if PyStr.eqb p path then Some data else disk w p;
     stdout := stdout w |}.

(** How a run ends: it runs to its end, leaves through [sys.exit(code)],
    or [open] raises on a missing file. *)
Inductive outcome : Type :=
| Finished
| SysExit (code : Z)
| FileNotFoundError.

(** A character literal of the source. *)
Definition ch (a : ascii) : char := N_of_ascii a.

(* ================================================================== *)
(** * The text extractor: extract_chapter_text.py *)
(* ================================================================== *)

Module ExtractChapterText.
Import Re.
Local Open Scope re_scope.

(** [r'<article>(.*?)</article>'], DOTALL. *)
Definition ARTICLE : regex :=
  lit (str "<article>") >> Grp 1 (Rep false 0 any) >> lit (str "</article>").

(** [r'</(p|div|h[1-6]|li|tr|th|td)>'], IGNORECASE. *)
Definition BLOCK_END : regex :=
  liti (str "</")
  >> Grp 1 (liti (str "p") <|> liti (str "div")
            <|> (liti (str "h") >> Cls (fun c => range (ch "1") (ch "6") (lower c)))
            <|> liti (str "li") <|> liti (str "tr") <|> liti (str "th")
            <|> liti (str "td"))
  >> liti (str ">").

(** [r'<script[^>]*>.*?</script>'] and [r'<style[^>]*>.*?</style>'],
    DOTALL | IGNORECASE. *)
Definition SCRIPT : regex :=
  liti (str "<script") >> Rep true 0 (fun c => neqc (ch ">") (lower c))
  >> liti (str ">") >> Rep false 0 any >> liti (str "</script>").
Definition STYLE : regex :=
  liti (str "<style") >> Rep true 0 (fun c => neqc (ch ">") (lower c))
  >> liti (str ">") >> Rep false 0 any >> liti (str "</style>").

(** [r'<[^>]+>'], [r'&nbsp;'], [r'\s+'] and [r' *\n *']. *)
Definition TAG : regex :=
  lit (str "<") >> Rep true 1 (neqc (ch ">")) >> lit (str ">").
Definition NBSP : regex := lit (str "&nbsp;").
Definition SPACES : regex := Rep true 1 isspace.
Definition PADDED_NEWLINE : regex :=
  Rep true 0 (eqc SP) >> lit nl >> Rep true 0 (eqc SP).

Definition extract_article_text (html : pystr) : pystr :=
  match search ARTICLE html with
  | None => []
  | Some m =>
      let raw := group_or_empty m 1 in
      let raw := sub BLOCK_END (fun _ => nl) raw in
      let raw := sub SCRIPT (fun _ => []) raw in
      let raw := sub STYLE (fun _ => []) raw in
      let text := sub TAG (fun _ => [SP]) raw in
      let text := sub NBSP (fun _ => [SP]) text in
      let text := sub SPACES (fun _ => [SP]) text in
      let text := sub PADDED_NEWLINE (fun _ => nl) text in
      strip text
  end.

End ExtractChapterText.

(* ================================================================== *)
(** * The segmenter: rebuild_kap2.py *)
(* ================================================================== *)

Module RebuildKap2.
Import Re.
Local Open Scope re_scope.

Definition path : pystr :=
  str "/Users/thomaspetersen/GIT/makro.tepedu.dk/kapitel2.html".

(** [r'(<article>.*?</article>)'], DOTALL. *)
Definition ARTICLE : regex :=
  Grp 1 (lit (str "<article>") >> Rep false 0 any >> lit (str "</article>")).

(** [r'(<(?:h1|h2|h3|h4).*?>)'], IGNORECASE. *)
Definition HEADING : regex :=
  Grp 1 (liti (str "<")
         >> (liti (str "h1") <|> liti (str "h2") <|> liti (str "h3")
             <|> liti (str "h4"))
         >> Rep false 0 dot >> liti (str ">")).

(** The opening of an info-box, [<div\s+class=Qinfo-box[^Q]*Q>] where Q
    stands for the double quote. *)
Definition INFO_BOX_OPEN : regex :=
  lit (str "<div") >> Rep true 1 isspace
  >> lit (str "class=" ++ dq ++ str "info-box")
  >> Rep true 0 (neqc DQ) >> lit (dq ++ str ">").

(** The whole body in one info-box: [^], the opening, [\s*], the greedy
    [.*] as group 1, and [\s*</div>$]; DOTALL. *)
Definition WRAPPED : regex :=
  Bol >> INFO_BOX_OPEN >> Rep true 0 isspace >> Grp 1 (Rep true 0 any)
  >> Rep true 0 isspace >> lit (str "</div>") >> Eol.

(** [^] and the opening. *)
Definition LEADING_OPEN : regex := Bol >> INFO_BOX_OPEN.

(** [r'</article>\s*$']. *)
Definition ARTICLE_END : regex :=
  lit (str "</article>") >> Rep true 0 isspace >> Eol.

(** [r'<article>.*?</article>'], DOTALL. *)
Definition ARTICLE_ANY : regex :=
  lit (str "<article>") >> Rep false 0 any >> lit (str "</article>").

Definition placeholder : pystr := str "@@@ARTICLE_PLACEHOLDER@@@".

(** The wrapper a body is put in: the div of class info-box, newline,
    the body, newline, [</div>], newline. *)
Definition wrap (body : pystr) : pystr :=
  str "<div class=" ++ dq ++ str "info-box" ++ dq ++ str ">" ++ nl
  ++ body ++ nl ++ str "</div>" ++ nl.

(** The [while True] loop that strips the outer info-box: [None] when the
    fuel runs out before the loop breaks. *)
Fixpoint strip_loop (fuel : nat) (body : pystr) : option pystr :=
  match fuel with
  | O => None
  | S fuel' =>
      match match_ WRAPPED body with
      | Some m => strip_loop fuel' (strip (group_or_empty m 1))
      | None => Some body
      end
  end.

(** Every turn of the loop shortens the body, so its length (and one
    turn for the break) is fuel enough; see [strip_loop_total]. *)
Definition strip_wrappers (body : pystr) : pystr :=
  match strip_loop (S (List.length body)) body with
  | Some b => b
  | None => body
  end.

(** Lines 33-48: the body cleaned of its outer wrappers. *)
Definition clean_body (body : pystr) : pystr :=
  let body := strip body in
  let body := strip_wrappers body in
  strip (sub LEADING_OPEN (fun _ => []) body).

(** Lines 53-58: what one heading and its cleaned body add. *)
Definition emit_segment (heading body : pystr) : pystr :=
  heading ++ nl
  ++ (if negb (contains (str "Quiz") heading)
         && negb (contains (str "h1") heading)
      then wrap body
      else body ++ nl).

(** The [for i in range(1, len(parts), 2)] loop over [parts[1:]]. *)
Fixpoint segments (ps : list pystr) : pystr :=
  match ps with
  | [] => []
  | [heading] => emit_segment heading (clean_body [])
  | heading :: body :: ps' =>
      emit_segment heading (clean_body body) ++ segments ps'
  end.

(** Lines 19-64: the article rebuilt. *)
Definition rebuild_article (article_content : pystr) : pystr :=
  let parts := split HEADING article_content in
  let new_article := hd [] parts ++ segments (tl parts) in
  if negb (endswith (str "</article>") new_article)
  then match search ARTICLE_END new_article with
       | None => new_article ++ str "</article>"
       | Some _ => new_article
       end
  else new_article.

(** Lines 10-70 on the text of the file: [None] when no article is
    found. *)
Definition rebuild_content (content : pystr) : option pystr :=
  match search ARTICLE content with
  | None => None
  | Some m =>
      let new_article := rebuild_article (group_or_empty m 1) in
      let output := sub ARTICLE_ANY (fun _ => placeholder) content in
      Some (replace placeholder new_article output)
  end.

(** The script. *)
Definition rebuild_kap2 (w : world) : world * outcome :=
  match disk w path with
  | None => (w, FileNotFoundError)
  | Some content =>
      match rebuild_content content with
      | None => (print (str "No article found") w, SysExit 1)
      | Some output => (write path output w, Finished)
      end
  end.

End RebuildKap2.

(* ================================================================== *)
(** * The heading extraction of fix_kap1.py *)
(* ================================================================== *)

Module FixKap1.
Import Re.
Local Open Scope re_scope.

(** [r'<(h2|h3|h4).*?>.*?</\1>'], IGNORECASE | DOTALL. *)
Definition HEADING_ELEMENT : regex :=
  liti (str "<")
  >> Grp 1 (liti (str "h2") <|> liti (str "h3") <|> liti (str "h4"))
  >> Rep false 0 any >> liti (str ">") >> Rep false 0 any
  >> liti (str "</") >> RefI 1 >> liti (str ">").

(** [headings = list(re.finditer(...))], each as its [group(0)]: the
    level 2-4 headings of an article, tag and content. *)
Definition headings (article_content : pystr) : list pystr :=
  map m_group0 (finditer HEADING_ELEMENT article_content).

End FixKap1.

(* ================================================================== *)
(** * The span stripper: clean_glossary.py *)
(* ================================================================== *)

Module CleanGlossary.
Import Re.
Local Open Scope re_scope.

Definition SPAN_OPEN : pystr :=
  str "<span class=" ++ dq ++ str "legal-term" ++ dq.

(** The span of class legal-term: [SPAN_OPEN], [[^>]*>(.*?)</span>]. *)
Definition SPAN : regex :=
  lit SPAN_OPEN >> Rep true 0 (neqc (ch ">")) >> lit (str ">")
  >> Grp 1 (Rep false 0 dot) >> lit (str "</span>").

(** The div of class podcast-section, [.*?</div>\s*</div>], DOTALL. *)
Definition PODCAST : regex :=
  lit (str "<div class=" ++ dq ++ str "podcast-section" ++ dq ++ str ">")
  >> Rep false 0 any >> lit (str "</div>") >> Rep true 0 isspace
  >> lit (str "</div>").

(** The div of class quiz-container, [.*?</div>], DOTALL. *)
Definition QUIZ : regex :=
  lit (str "<div class=" ++ dq ++ str "quiz-container" ++ dq ++ str ">")
  >> Rep false 0 any >> lit (str "</div>").

(** The callback: the block with every span replaced by [\1]. *)
Definition remove_legal_terms (m : match_obj) : pystr :=
  sub SPAN (fun m' => group_or_empty m' 1) (m_group0 m).

(** [new_content] of [clean_file]. *)
Definition clean_content (content : pystr) : pystr :=
  let new_content := sub PODCAST remove_legal_terms content in
  sub QUIZ remove_legal_terms new_content.

(** [clean_file(filepath)]: the world after the call and the value
    returned ([None] when [open] raises). *)
Definition clean_file (filepath : pystr) (w : world) : world * option bool :=
  match disk w filepath with
  | None => (w, None)
  | Some content =>
      let new_content := clean_content content in
      if negb (PyStr.eqb new_content content)
      then (write filepath new_content w, Some true)
      else (w, Some false)
  end.

End CleanGlossary.

(* ================================================================== *)
(** * The other depth auditors: check_depth_v2.py, debug_depth.py and
      the totals of check_nesting.py *)
(* ================================================================== *)

Module CheckDepthV2.

(** The heading test of check_depth_v2.py:
    ['<h3>' in line or '<h4>' in line or 'h2' in line]. *)
Definition has_heading_v2 (line : pystr) : bool :=
  contains (str "<h3>") line || contains (str "<h4>") line
  || contains (str "h2") line.

(** One printed row: [line_num | depth | change | content]. *)
Record row := { line_num : nat; depth : Z; change : Z; content : pystr }.

(** The loop of check_depth_v2.py (the two header lines it prints first
    are left out of the result). *)
Fixpoint scan (lines : list pystr) (i : nat) (depth : Z) : Z * list row :=
  match lines with
  | [] => (depth, [])
  | line :: rest =>
      let line_num := i + 1 in
      let opens := opens_of line in
      let closes := closes_of line in
      if ((0 <? opens) || (0 <? closes))%Z then
        let old_depth := depth in
        let depth := (depth + (opens - closes))%Z in
        let (d, out) := scan rest (S i) depth in
        if has_heading_v2 line
        then (d, {| line_num := line_num; depth := old_depth;
                    change := (opens - closes)%Z; content := strip line |}
                 :: out)
        else if negb (opens =? closes)%Z
        then if (140 <? line_num) && (line_num <? 350)
             then (d, {| line_num := line_num; depth := old_depth;
                         change := (opens - closes)%Z;
                         content := firstn 50 (strip line) |} :: out)
             else (d, out)
        else (d, out)
      else if has_heading_v2 line then
        let (d, out) := scan rest (S i) depth in
        (d, {| line_num := line_num; depth := depth; change := 0%Z;
               content := strip line |} :: out)
      else scan rest (S i) depth
  end.

Definition check_depth_v2 (file : pystr) : Z * list row :=
  scan (readlines file) 0 0%Z.

End CheckDepthV2.

Module DebugDepth.

(** The loop of debug_depth.py, which prints what debug_file.py prints. *)
Fixpoint scan (lines : list pystr) (i : nat) (depth : Z)
  : Z * list DebugFile.record :=
  match lines with
  | [] => (depth, [])
  | line :: rest =>
      let line_num := i + 1 in
      let opens := opens_of line in
      let closes := closes_of line in
      let old_depth := depth in
      let depth := (depth + (opens - closes))%Z in
      let (d, out) := scan rest (S i) depth in
      if negb (opens =? closes)%Z || has_heading line
      then (d, {| DebugFile.line_num := line_num;
                  DebugFile.old_depth := old_depth;
                  DebugFile.new_depth := depth;
                  DebugFile.content := firstn 60 (strip line) |} :: out)
      else (d, out)
  end.

Definition debug_depth (file : pystr) : Z * list DebugFile.record :=
  scan (readlines file) 0 0%Z.

End DebugDepth.

Module CheckNesting.
Import Re.

(** [re.findall(r, s)] for a pattern without groups: the texts matched. *)
Definition findall (r : regex) (s : pystr) : list pystr :=
  map m_group0 (finditer r s).

(** [r'<div'] and [r'</div>']. *)
Definition DIV_OPEN : regex := lit (str "<div").
Definition DIV_CLOSE : regex := lit (str "</div>").

(** Lines 27-31 of check_nesting.py: [opens] and [closes] over the whole
    file. *)
Definition totals (content : pystr) : nat * nat :=
  (List.length (findall DIV_OPEN content),
   List.length (findall DIV_CLOSE content)).

End CheckNesting.

(* ================================================================== *)
(** * The batch of clean_glossary.py *)
(* ================================================================== *)

Module CleanGlossaryMain.

(** [str(i)], the decimal digits of [i]. *)
Definition decimal (i : nat) : pystr :=
  str (NilEmpty.string_of_uint (Nat.to_uint i)).

(** [f'kapitel{i}.html']. *)
Definition filename (i : nat) : pystr :=
  str "kapitel" ++ decimal i ++ str ".html".

(** The body of the loop, lines 31-36: a chapter that does not exist is
    passed over; the others are cleaned and reported. *)
Definition step (w : world) (i : nat) : world :=
  let filename := filename i in
  match disk w filename with
  | None => w
  | Some _ =>
      match CleanGlossary.clean_file filename w with
      | (w', Some true) => print (str "Cleaned " ++ filename) w'
      | (w', Some false) =>
          print (str "No changes needed for " ++ filename) w'
      | (w', None) => w'
      end
  end.

(** [for i in range(1, 9)]. *)
Definition main (w : world) : world := fold_left step (seq 1 8) w.

End CleanGlossaryMain.

(* ================================================================== *)
(** * fix_html of fix_kap1.py *)
(* ================================================================== *)

Module FixHtml.
Import Re.
Local Open Scope re_scope.

Definition spaces (n : nat) : pystr := repeat SP n.

(** The opening tag of an info-box as the script writes it. *)
Definition INFO_BOX : pystr :=
  str "<div class=" ++ dq ++ str "info-box" ++ dq ++ str ">".

(** [r'(<article>.*?</article>)'], DOTALL. *)
Definition ARTICLE : regex :=
  Grp 1 (lit (str "<article>") >> Rep false 0 any >> lit (str "</article>")).

(** The pattern of line 15: the opening tag of an info-box. *)
Definition INFO_BOX_TAG : regex := lit INFO_BOX.

(** The pattern of line 47: [<], an optional [/], and the rest of the
    opening tag of an info-box. *)
Definition INFO_BOX_EITHER : regex :=
  lit (str "<") >> (Cls (eqc (ch "/")) <|> Eps)
  >> lit (str "div class=" ++ dq ++ str "info-box" ++ dq ++ str ">").

(** The pattern of line 34, DOTALL: the [h1] element, then the first div
    of class book-cover-wrapper up to the first [</div>]. *)
Definition PREFIX : regex :=
  Grp 1 (lit (str "<h1") >> Rep false 0 any >> lit (str ">")
         >> Rep false 0 any >> lit (str "</h1>") >> Rep false 0 any
         >> lit (str "<div class=" ++ dq ++ str "book-cover-wrapper" ++ dq
                 ++ str ">")
         >> Rep false 0 any >> lit (str "</div>")).

(** [s[a:b]] for positions within the text. *)
Definition slice (s : pystr) (a b : nat) : pystr := firstn (b - a) (skipn a s).

(** [m.end()]. *)
Definition m_end (m : match_obj) : nat := m_start m + m_len m.

(** [s and not s.isspace()]: the text holds a character that is no
    whitespace. *)
Definition has_content (s : pystr) : bool :=
  match s with
  | [] => false
  | _ => negb (forallb isspace s)
  end.

(** Lines 47-50: the wrappers taken out of the text between headings. *)
Definition clean_between (between : pystr) : pystr :=
  let between := sub INFO_BOX_EITHER (fun _ => []) between in
  let between := replace INFO_BOX [] between in
  let between :=
    replace (str "</div>" ++ nl ++ spaces 20 ++ str "</div>") (str "</div>")
      between in
  replace (str "</div>" ++ nl ++ spaces 16 ++ str "</div>") (str "</div>")
    between.

(** Lines 53-59: what the text between two headings adds. *)
Definition between_block (between : pystr) : pystr :=
  if has_content between then
    if 20 <? List.length between
    then spaces 16 ++ INFO_BOX ++ nl ++ spaces 20 ++ between ++ nl
         ++ spaces 16 ++ str "</div>" ++ nl
    else spaces 16 ++ between ++ nl
  else [].

(** The line a heading is put on. *)
Definition heading_line (h : match_obj) : pystr :=
  spaces 16 ++ m_group0 h ++ nl.

(** The loop over the headings, lines 42-63. *)
Fixpoint loop (article_content : pystr) (headings : list match_obj)
  (last_pos : nat) (new_article : pystr) : nat * pystr :=
  match headings with
  | [] => (last_pos, new_article)
  | h_match :: rest =>
      let between_content :=
        strip (slice article_content last_pos (m_start h_match)) in
      let between_content := clean_between between_content in
      let new_article := new_article ++ between_block between_content in
      let new_article := new_article ++ heading_line h_match in
      loop article_content rest (m_end h_match) new_article
  end.

(** The article as the loop reads it: the first container without the
    opening tags of its info-boxes. *)
Definition stripped_article (m : match_obj) : pystr :=
  sub INFO_BOX_TAG (fun _ => []) (group_or_empty m 1).

Definition fix_html (content : pystr) : pystr :=
  match search ARTICLE content with
  | None => str "Article not found"
  | Some m =>
      let article_content := stripped_article m in
      let headings := finditer FixKap1.HEADING_ELEMENT article_content in
      let new_article := str "<article>" ++ nl in
      let '(new_article, last_pos) :=
        match search PREFIX article_content with
        | Some prefix_match =>
            (new_article ++ group_or_empty prefix_match 1 ++ nl,
             m_end prefix_match)
        | None => (new_article, 0)
        end in
      let '(last_pos, new_article) :=
        loop article_content headings last_pos new_article in
      let final_between :=
        strip (slice article_content last_pos (List.length article_content)) in
      let new_article :=
        if has_content final_between
        then new_article ++ spaces 16 ++ INFO_BOX ++ nl ++ spaces 20
             ++ replace (str "</article>") [] final_between ++ nl
             ++ spaces 16 ++ str "</div>" ++ nl
        else new_article in
      new_article ++ spaces 12 ++ str "</article>"
  end.

End FixHtml.

(* ================================================================== *)
(** * Notions of the specification *)
(* ================================================================== *)

(** [occurs p s]: the text [p] occurs somewhere in [s]. *)
Definition occurs (p s : pystr) : Prop := exists a c, s = a ++ p ++ c.

(** A document holds an article container region when an [<article>] is
    followed, later on, by an [</article>]. *)
Definition article_region (html : pystr) : Prop :=
  exists a b c, html = a ++ str "<article>" ++ b ++ str "</article>" ++ c.

(** The level 2-4 headings of the article container of a document, as
    fix_kap1.py extracts them from the container rebuild_kap2.py finds. *)
Definition article_headings (content : pystr) : list pystr :=
  match Re.search RebuildKap2.ARTICLE content with
  | Some m => FixKap1.headings (Re.group_or_empty m 1)
  | None => []
  end.

(** The balanced four-line snippet of the specification. *)
Definition balanced_snippet : pystr :=
  str "<div>" ++ nl ++ str "<div>" ++ nl ++ str "</div>" ++ nl
  ++ str "</div>" ++ nl.

(** The info-box opening tag and the sample documents of the
    specification. *)
Definition info_box_open : pystr :=
  str "<div class=" ++ dq ++ str "info-box" ++ dq ++ str ">".

Definition nested_wrappers : pystr :=
  info_box_open ++ info_box_open ++ str "X</div></div>".

Definition title_hello : pystr :=
  str "<article><h2>Title</h2><p>Hello&nbsp;world</p></article>".

(** A chapter with one level-2 heading and a paragraph, and what the
    segmenter makes of it. *)
Definition one_heading : pystr :=
  str "<article><h2>Title</h2><p>x</p></article>".

Definition one_heading_rebuilt : pystr :=
  str "<article><h2>" ++ nl ++ info_box_open ++ nl
  ++ str "Title</h2><p>x</p></article>" ++ nl ++ str "</div>" ++ nl
  ++ str "</article>".

(** A chapter whose only heading is the quiz heading. *)
Definition quiz_heading : pystr :=
  str "<article><h2>Quiz</h2><p>q</p></article>".

(** A quiz block in which a decorated term is decorated twice. *)
Definition span_open : pystr := CleanGlossary.SPAN_OPEN ++ str ">".
Definition quiz_open : pystr :=
  str "<div class=" ++ dq ++ str "quiz-container" ++ dq ++ str ">".

(** A chapter with a decorated term in its text and one in its quiz
    block. *)
Definition decorated_chapter : pystr :=
  str "<p>" ++ span_open ++ str "BNP</span></p>"
  ++ quiz_open ++ span_open ++ str "x</span></div>".


(** The sub-regions of the span stripper: the podcast blocks and the
    quiz blocks of a document, as its two patterns find them. *)
Definition blocks (content : pystr) : list pystr :=
  map Re.m_group0 (Re.finditer CleanGlossary.PODCAST content)
  ++ map Re.m_group0 (Re.finditer CleanGlossary.QUIZ content).

(** No block holds the opening marker of a decorated term. *)
Definition blocks_undecorated (content : pystr) : bool :=
  forallb (fun b => negb (contains CleanGlossary.SPAN_OPEN b))
    (blocks content).

(** A world whose only file is [content] at [filepath]. *)
Definition world_with (filepath content : pystr) : world :=
  {| disk := fun p => if PyStr.eqb p filepath then Some content else None;
     stdout := [] |}.

(** A world whose chapter file holds a paragraph and no article. *)
Definition world_without_article : world :=
  world_with RebuildKap2.path (str "<p>Hello</p>").

Definition kapitel1 : pystr := str "kapitel1.html".

(** ** Notions for the depth auditors *)

(** What a line adds to the depth, and the depth after some lines. *)
Definition delta (line : pystr) : Z := (opens_of line - closes_of line)%Z.
Definition depth_after (lines : list pystr) (d : Z) : Z :=
  fold_left (fun d line => (d + delta line)%Z) lines d.

(** The rows the auditors print, line by line: [reported_lines test
    lines] are the indices (from 0) of the lines that pass [test]. *)
Definition reported_lines (test : pystr -> bool) (lines : list pystr)
  : list nat :=
  filter (fun j => test (nth j lines [])) (seq 0 (List.length lines)).

(** The test of debug_file.py and debug_depth.py for printing a line. *)
Definition changes_or_heading (line : pystr) : bool :=
  negb (opens_of line =? closes_of line)%Z || has_heading line.

(** ** Notions for the text extractor *)

(** The number of whitespace characters a text starts with. *)
Fixpoint lead (s : pystr) : nat :=
  match s with
  | c :: s' => if isspace c then S (lead s') else 0
  | [] => 0
  end.

(** Whitespace runs collapsed in one pass: a space for the first
    whitespace character of a run, nothing for the others. *)
Fixpoint collapse (in_space : bool) (s : pystr) : pystr :=
  match s with
  | [] => []
  | c :: s' =>
      if isspace c
      then if in_space then collapse true s' else SP :: collapse true s'
      else c :: collapse false s'
  end.

(** No two whitespace characters stand side by side. *)
Fixpoint single_spaced (s : pystr) : bool :=
  match s with
  | [] => true
  | a :: t =>
      match t with
      | b :: _ => negb (isspace a && isspace b)
      | [] => true
      end && single_spaced t
  end.

(** The text is empty or starts with a character that is no whitespace. *)
Definition starts_clean (s : pystr) : bool :=
  match s with
  | [] => true
  | c :: _ => negb (isspace c)
  end.

(** ** Notions for the span stripper *)

(** The number of decorated spans found in the blocks that the pattern
    [r] finds in a document, and the number of spans a run strips: those
    in the podcast blocks of the document and those in the quiz blocks
    of what the first pass returns. *)
Definition spans_in_blocks (r : Re.regex) (content : pystr) : nat :=
  List.length
    (List.concat
       (map (fun m => Re.finditer CleanGlossary.SPAN (Re.m_group0 m))
            (Re.finditer r content))).

Definition stripped_spans (content : pystr) : nat :=
  spans_in_blocks CleanGlossary.PODCAST content
  + spans_in_blocks CleanGlossary.QUIZ
      (Re.sub CleanGlossary.PODCAST CleanGlossary.remove_legal_terms content).

(** The file at [p] exists. *)
Definition exists_file (w : world) (p : pystr) : bool :=
  match disk w p with Some _ => true | None => false end.

(** [in_order hs s]: the texts [hs] stand in [s] one after the other, in
    this order and without overlap. *)
Inductive in_order : list pystr -> pystr -> Prop :=
| in_order_nil s : in_order [] s
| in_order_cons h hs a t :
    in_order hs t -> in_order (h :: hs) (a ++ h ++ t).

(* ================================================================== *)
(** * Theorems *)
(* ================================================================== *)

Import Re.

(** ** Python strings *)

Lemma startswith_app (p t : pystr) : startswith p (p ++ t) = true.
Proof.
  induction p as [|a p IH]; simpl; [reflexivity|].
  now rewrite N.eqb_refl, IH.
Qed.

Lemma startswith_inv (p s : pystr) :
  startswith p s = true -> exists t, s = p ++ t.
Proof.
  revert s; induction p as [|a p IH]; intros s H.
  - now exists s.
  - destruct s as [|b s]; simpl in H; [discriminate|].
    apply andb_true_iff in H as [E H]. apply N.eqb_eq in E. subst b.
    destruct (IH _ H) as [t ->]. now exists t.
Qed.

Lemma eqb_eq (a b : pystr) : PyStr.eqb a b = true <-> a = b.
Proof.
  revert b; induction a as [|x a IH]; intros [|y b]; simpl;
    try (split; [discriminate|intros; discriminate]); try tauto.
  rewrite andb_true_iff, N.eqb_eq, IH. split.
  - now intros [-> ->].
  - intros E; now injection E.
Qed.

Lemma lstrip_incl (s : pystr) x : In x (lstrip s) -> In x s.
Proof.
  induction s as [|c s IH]; simpl; [tauto|].
  destruct (isspace c); simpl; tauto.
Qed.

Lemma strip_incl (s : pystr) x : In x (strip s) -> In x s.
Proof.
  unfold strip, rstrip. intros H.
  apply lstrip_incl. apply in_rev. apply lstrip_incl. now apply in_rev.
Qed.

Lemma lstrip_length (s : pystr) : List.length (lstrip s) <= List.length s.
Proof.
  induction s as [|c s IH]; simpl; [lia|].
  destruct (isspace c); simpl; lia.
Qed.

Lemma strip_length (s : pystr) : List.length (strip s) <= List.length s.
Proof.
  unfold strip, rstrip. rewrite length_rev.
  etransitivity; [apply lstrip_length|]. rewrite length_rev.
  apply lstrip_length.
Qed.

(** ** The matcher finds what the pattern matches *)

Lemma rep_greedy_sound p k : forall s i cs x,
  rep_greedy p k i cs s = Some x ->
  exists l s', s = l ++ s' /\ forallb p l = true
    /\ k {| pos := i + List.length l; rest := s'; caps := cs |} = Some x.
Proof.
  induction s as [|c s IH]; intros i cs x H; simpl in H.
  - exists [], []. simpl. now rewrite Nat.add_0_r.
  - destruct (p c) eqn:Hp.
    + destruct (rep_greedy p k (S i) cs s) eqn:Hr.
      * injection H as ->. destruct (IH _ _ _ Hr) as (l & s' & -> & Hl & Hk).
        exists (c :: l), s'. simpl. rewrite Hp, Hl.
        now rewrite Nat.add_succ_r.
      * exists [], (c :: s). simpl. now rewrite Nat.add_0_r.
    + exists [], (c :: s). simpl. now rewrite Nat.add_0_r.
Qed.

Lemma rep_lazy_sound p k : forall s i cs x,
  rep_lazy p k i cs s = Some x ->
  exists l s', s = l ++ s' /\ forallb p l = true
    /\ k {| pos := i + List.length l; rest := s'; caps := cs |} = Some x.
Proof.
  induction s as [|c s IH]; intros i cs x H; simpl in H.
  - destruct (k {| pos := i; rest := []; caps := cs |}) eqn:Hk; [|discriminate].
    exists [], []. simpl. now rewrite Nat.add_0_r, Hk.
  - destruct (k {| pos := i; rest := c :: s; caps := cs |}) eqn:Hk.
    + exists [], (c :: s). simpl. now rewrite Nat.add_0_r, Hk.
    + destruct (p c) eqn:Hp; [|discriminate].
      destruct (IH _ _ _ H) as (l & s' & -> & Hl & Hk').
      exists (c :: l), s'. simpl. rewrite Hp, Hl.
      now rewrite Nat.add_succ_r.
Qed.

Lemma rep_min_sound g p k : forall lo s i cs x,
  rep_min g lo p k i cs s = Some x ->
  exists l s', s = l ++ s' /\ forallb p l = true /\ lo <= List.length l
    /\ k {| pos := i + List.length l; rest := s'; caps := cs |} = Some x.
Proof.
  induction lo as [|lo IH]; intros s i cs x H; simpl in H.
  - destruct g;
      [apply rep_greedy_sound in H|apply rep_lazy_sound in H];
      destruct H as (l & s' & -> & Hl & Hk); exists l, s';
      repeat split; auto; lia.
  - destruct s as [|c s]; [discriminate|].
    destruct (p c) eqn:Hp; [|discriminate].
    destruct (IH _ _ _ _ H) as (l & s' & -> & Hl & Hlo & Hk).
    exists (c :: l), s'. simpl. rewrite Hp, Hl, Nat.add_succ_r.
    repeat split; auto; lia.
Qed.

Theorem rmatch_sound : forall r k st x,
  rmatch r k st = Some x -> exists st', matches r st st' /\ k st' = Some x.
Proof.
  induction r as [|p|r1 IH1 r2 IH2|r1 IH1 r2 IH2|g lo p|n r IH|n| |];
    intros k st x H; simpl in H.
  - exists st. split; [constructor|assumption].
  - destruct st as [i s cs]; simpl in H. destruct s as [|c s]; [discriminate|].
    destruct (p c) eqn:Hp; [|discriminate].
    eexists. split; [now constructor|exact H].
  - destruct (IH1 _ _ _ H) as (st1 & M1 & H1).
    destruct (IH2 _ _ _ H1) as (st2 & M2 & H2).
    exists st2. split; [econstructor; eassumption|assumption].
  - destruct (rmatch r1 k st) eqn:E.
    + injection H as ->. destruct (IH1 _ _ _ E) as (st' & M & Hk).
      exists st'. split; [now apply M_AltL|assumption].
    + destruct (IH2 _ _ _ H) as (st' & M & Hk).
      exists st'. split; [now apply M_AltR|assumption].
  - destruct st as [i s cs]; simpl in H.
    destruct (rep_min_sound _ _ _ _ _ _ _ H) as (l & s' & -> & Hl & Hlo & Hk).
    eexists. split; [now apply M_Rep|exact Hk].
  - destruct (IH _ _ _ H) as (st' & M & Hk).
    eexists. split; [apply M_Grp; eassumption|exact Hk].
  - destruct (lookup n (caps st)) as [t|] eqn:Hl; [|discriminate].
    destruct (ref_prefix t (rest st)) as [s'|] eqn:Hr; [|discriminate].
    eexists. split; [eapply M_RefI; eassumption|exact H].
  - destruct (Nat.eqb (pos st) 0) eqn:E; [|discriminate].
    apply Nat.eqb_eq in E. exists st. split; [now constructor|assumption].
  - exists st. split; [|destruct (rest st) as [|c [|d s]];
                          [assumption| |discriminate];
                          destruct (c =? NL)%N; [assumption|discriminate]].
    constructor. destruct (rest st) as [|c [|d s]]; [now left| |discriminate].
    destruct (c =? NL)%N eqn:E; [|discriminate].
    apply N.eqb_eq in E. subst. now right.
Qed.

Lemma rep_greedy_complete p k : forall l s' i cs,
  forallb p l = true ->
  k {| pos := i + List.length l; rest := s'; caps := cs |} <> None ->
  rep_greedy p k i cs (l ++ s') <> None.
Proof.
  induction l as [|c l IH]; intros s' i cs Hl Hk; simpl in *.
  - rewrite Nat.add_0_r in Hk.
    destruct s' as [|c s]; simpl; [assumption|].
    destruct (p c); [|assumption].
    destruct (rep_greedy p k (S i) cs s); [discriminate|assumption].
  - apply andb_true_iff in Hl as [Hc Hl]. rewrite Hc.
    rewrite Nat.add_succ_r in Hk.
    specialize (IH s' (S i) cs Hl Hk).
    destruct (rep_greedy p k (S i) cs (l ++ s')); [discriminate|contradiction].
Qed.

Lemma rep_lazy_complete p k : forall l s' i cs,
  forallb p l = true ->
  k {| pos := i + List.length l; rest := s'; caps := cs |} <> None ->
  rep_lazy p k i cs (l ++ s') <> None.
Proof.
  induction l as [|c l IH]; intros s' i cs Hl Hk; simpl in *.
  - rewrite Nat.add_0_r in Hk.
    destruct s' as [|c s]; simpl;
      destruct (k {| pos := i; rest := _; caps := cs |});
      [discriminate|contradiction|discriminate|contradiction].
  - apply andb_true_iff in Hl as [Hc Hl]. rewrite Hc.
    rewrite Nat.add_succ_r in Hk.
    destruct (k {| pos := i; rest := c :: l ++ s'; caps := cs |});
      [discriminate|]. now apply IH.
Qed.

Lemma rep_min_complete g p k : forall lo l s' i cs,
  forallb p l = true -> lo <= List.length l ->
  k {| pos := i + List.length l; rest := s'; caps := cs |} <> None ->
  rep_min g lo p k i cs (l ++ s') <> None.
Proof.
  induction lo as [|lo IH]; intros l s' i cs Hl Hlo Hk; simpl.
  - destruct g; [now apply rep_greedy_complete|now apply rep_lazy_complete].
  - destruct l as [|c l]; simpl in *; [lia|].
    apply andb_true_iff in Hl as [Hc Hl]. rewrite Hc.
    rewrite Nat.add_succ_r in Hk. apply IH; auto; lia.
Qed.

Theorem rmatch_complete : forall r st st',
  matches r st st' -> forall k, k st' <> None -> rmatch r k st <> None.
Proof.
  induction 1 as [st|p c s' i cs Hp|r1 r2 st st1 st2 _ IH1 _ IH2
                 |r1 r2 st st' _ IH|r1 r2 st st' _ IH|g lo p l s' i cs Hl Hlo
                 |n r st st' _ IH|n t s' st Hn Ht|st Hb|st He];
    intros k Hk; simpl.
  - assumption.
  - now rewrite Hp.
  - apply IH1. now apply IH2.
  - specialize (IH k Hk). destruct (rmatch r1 k st); [discriminate|contradiction].
  - destruct (rmatch r1 k st); [discriminate|now apply IH].
  - now apply rep_min_complete.
  - now apply IH.
  - now rewrite Hn, Ht.
  - rewrite Hb. assumption.
  - destruct He as [-> | ->]; [assumption|]. now rewrite N.eqb_refl.
Qed.

Lemma ref_prefix_inv : forall t s s',
  ref_prefix t s = Some s' ->
  exists l, s = l ++ s' /\ List.length l = List.length t.
Proof.
  induction t as [|a t IH]; intros s s' H; simpl in H.
  - injection H as ->. now exists [].
  - destruct s as [|b s]; [discriminate|].
    destruct (lower a =? lower b)%N; [|discriminate].
    destruct (IH _ _ H) as (l & -> & E). exists (b :: l). simpl. now rewrite E.
Qed.

(** A match consumes a prefix of the text and advances the position by
    its length. *)
Lemma matches_suffix r st st' :
  matches r st st' ->
  exists l, rest st = l ++ rest st' /\ pos st' = pos st + List.length l.
Proof.
  induction 1 as [st|p c s' i cs Hp|r1 r2 st st1 st2 _ IH1 _ IH2
                 |r1 r2 st st' _ IH|r1 r2 st st' _ IH|g lo p l s' i cs Hl Hlo
                 |n r st st' _ IH|n t s' st Hn Ht|st Hb|st He]; simpl.
  - exists []. simpl. auto.
  - exists [c]. simpl. split; [reflexivity|lia].
  - destruct IH1 as (l1 & E1 & P1), IH2 as (l2 & E2 & P2).
    exists (l1 ++ l2). rewrite E1, E2, <- app_assoc, length_app.
    split; [reflexivity|lia].
  - exact IH.
  - exact IH.
  - now exists l.
  - exact IH.
  - destruct (ref_prefix_inv _ _ Ht) as (l & E & L).
    exists l. rewrite L. auto.
  - exists []. simpl. auto.
  - exists []. simpl. auto.
Qed.

(** Literals. *)
Lemma matches_lit_inv : forall p st st',
  matches (lit p) st st' ->
  rest st = p ++ rest st' /\ pos st' = pos st + List.length p
  /\ caps st' = caps st.
Proof.
  induction p as [|a p IH]; intros st st' M; simpl in M.
  - inversion M; subst. simpl. auto.
  - inversion M as [| |r1 r2 s0 s1 s2 M1 M2| | | | | | |]; subst.
    inversion M1 as [|q c s' i cs Hc| | | | | | | |]; subst.
    apply N.eqb_eq in Hc. subst c.
    destruct (IH _ _ M2) as (E & P & C). simpl in *.
    rewrite E, P, C. repeat split; auto; lia.
Qed.

Lemma matches_lit : forall p t i cs,
  matches (lit p) {| pos := i; rest := p ++ t; caps := cs |}
                  {| pos := i + List.length p; rest := t; caps := cs |}.
Proof.
  induction p as [|a p IH]; intros t i cs; simpl.
  - rewrite Nat.add_0_r. constructor.
  - econstructor.
    + apply M_Cls. apply N.eqb_refl.
    + rewrite Nat.add_succ_r. apply (IH t (S i) cs).
Qed.

(** One attempt. *)
Lemma try_at_sound r i s ma m :
  try_at r i s ma = Some m ->
  exists st', matches r {| pos := i; rest := s; caps := [] |} st'
    /\ m = {| m_start := i; m_len := pos st' - i;
              m_group0 := firstn (pos st' - i) s; m_caps := caps st' |}
    /\ (ma = true -> pos st' <> i).
Proof.
  unfold try_at. intros H.
  destruct (rmatch r _ _) as [st|] eqn:E; [|discriminate].
  injection H as <-.
  destruct (rmatch_sound _ _ _ E) as (st' & M & Hk).
  destruct (ma && Nat.eqb (pos st') i) eqn:B; [discriminate|].
  injection Hk as ->. exists st. repeat split; auto.
  intros ->. simpl in B. now apply Nat.eqb_neq in B.
Qed.

Lemma try_at_complete r i s st' :
  matches r {| pos := i; rest := s; caps := [] |} st' ->
  try_at r i s false <> None.
Proof.
  intros M. unfold try_at.
  destruct (rmatch r _ _) eqn:E; [discriminate|].
  exfalso. revert E. apply rmatch_complete with (st' := st'); [assumption|].
  simpl. discriminate.
Qed.

Lemma try_at_complete_advance r i s st' ma :
  matches r {| pos := i; rest := s; caps := [] |} st' -> pos st' <> i ->
  try_at r i s ma <> None.
Proof.
  intros M Hne. unfold try_at.
  destruct (rmatch r _ _) eqn:E; [discriminate|].
  exfalso. revert E. apply rmatch_complete with (st' := st'); [assumption|].
  apply Nat.eqb_neq in Hne. rewrite Hne, andb_false_r. discriminate.
Qed.

(** The text of a match is a prefix of the text it was tried on, of the
    length of the match. *)
Lemma try_at_group0 r i s ma m :
  try_at r i s ma = Some m ->
  exists t, s = m_group0 m ++ t /\ List.length (m_group0 m) = m_len m
            /\ (ma = true -> 0 < m_len m).
Proof.
  intros H. destruct (try_at_sound _ _ _ _ H) as (st' & M & -> & Hma).
  destruct (matches_suffix M) as (l & E & P). simpl in *. subst s.
  rewrite P. replace (i + List.length l - i) with (List.length l) by lia.
  rewrite firstn_app, Nat.sub_diag, firstn_all. simpl. rewrite app_nil_r.
  exists (rest st'). repeat split; auto.
  intros T. specialize (Hma T). lia.
Qed.

(** ** The iteration of [sub], [split] and [finditer] *)

(** Every match of the iteration is the result of an attempt on a suffix
    of the subject. *)
Lemma scan_mat r m : forall s i skip,
  In (Mat m) (scan r i s skip) ->
  exists a t j ma, s = a ++ t /\ try_at r j t ma = Some m.
Proof.
  induction s as [|c s IH]; intros i skip H; simpl in H.
  - destruct skip; [|contradiction].
    destruct (try_at r i [] false) as [m0|] eqn:E; [|contradiction].
    destruct H as [H|[]]. injection H as ->. now exists [], [], i, false.
  - assert (Hrec : forall j k, In (Mat m) (scan r j s k) ->
              exists a t j' ma, c :: s = a ++ t /\ try_at r j' t ma = Some m).
    { intros j k Hin. destruct (IH _ _ Hin) as (a & t & j' & ma & -> & Ht).
      now exists (c :: a), t, j', ma. }
    destruct skip as [|k]; [|now apply Hrec in H].
    destruct (try_at r i (c :: s) false) as [m0|] eqn:E.
    + destruct (m_len m0) as [|n].
      * destruct H as [H|H]; [injection H as ->; now exists [], (c :: s), i, false|].
        destruct (try_at r i (c :: s) true) as [m1|] eqn:E1.
        -- destruct H as [H|H];
             [injection H as ->; now exists [], (c :: s), i, true|].
           now apply Hrec in H.
        -- destruct H as [H|H]; [discriminate|]. now apply Hrec in H.
      * destruct H as [H|H]; [injection H as ->; now exists [], (c :: s), i, false|].
        now apply Hrec in H.
    + destruct H as [H|H]; [discriminate|]. now apply Hrec in H.
Qed.

(** Every character the iteration leaves alone stands where an attempt
    failed. *)
Lemma scan_chr r x : forall s i skip,
  In (Chr x) (scan r i s skip) ->
  exists a t j ma, s = a ++ x :: t /\ try_at r j (x :: t) ma = None.
Proof.
  induction s as [|c s IH]; intros i skip H; simpl in H.
  - destruct skip; [|contradiction].
    destruct (try_at r i [] false); [|contradiction].
    destruct H as [H|[]]. discriminate.
  - assert (Hrec : forall j k, In (Chr x) (scan r j s k) ->
              exists a t j' ma, c :: s = a ++ x :: t
                                /\ try_at r j' (x :: t) ma = None).
    { intros j k Hin. destruct (IH _ _ Hin) as (a & t & j' & ma & -> & Ht).
      now exists (c :: a), t, j', ma. }
    destruct skip as [|k]; [|now apply Hrec in H].
    destruct (try_at r i (c :: s) false) as [m0|] eqn:E.
    + destruct (m_len m0) as [|n].
      * destruct H as [H|H]; [discriminate|].
        destruct (try_at r i (c :: s) true) as [m1|] eqn:E1.
        -- destruct H as [H|H]; [discriminate|]. now apply Hrec in H.
        -- destruct H as [H|H];
             [injection H as ->; now exists [], s, i, true|].
           now apply Hrec in H.
      * destruct H as [H|H]; [discriminate|]. now apply Hrec in H.
    + destruct H as [H|H]; [injection H as ->; now exists [], s, i, false|].
      now apply Hrec in H.
Qed.

(** Putting every match back as it was found gives back the subject. *)
Lemma scan_rebuild r : forall s i skip,
  List.concat (map (emit m_group0) (scan r i s skip)) = skipn skip s.
Proof.
  assert (Hcut : forall (g t : pystr) c s n,
            c :: s = g ++ t -> List.length g = S n -> g ++ skipn n s = c :: s).
  { intros g t c s n E L. destruct g as [|d g]; [discriminate|].
    simpl in E, L. injection E as -> ->. injection L as <-.
    simpl. f_equal. rewrite skipn_app, skipn_all, Nat.sub_diag. reflexivity. }
  induction s as [|c s IH]; intros i skip; simpl.
  - destruct skip; [|reflexivity].
    destruct (try_at r i [] false) as [m|] eqn:E; [|reflexivity].
    destruct (try_at_group0 _ _ _ _ E) as (t & Ht & _).
    simpl. rewrite app_nil_r.
    destruct (m_group0 m); [reflexivity|discriminate].
  - destruct skip as [|k]; [|apply IH].
    destruct (try_at r i (c :: s) false) as [m|] eqn:E.
    + destruct (try_at_group0 _ _ _ _ E) as (t & Ht & Hl & _).
      destruct (m_len m) as [|n] eqn:Hn.
      * simpl. destruct (m_group0 m); [|discriminate]. simpl.
        destruct (try_at r i (c :: s) true) as [m1|] eqn:E1.
        -- destruct (try_at_group0 _ _ _ _ E1) as (t1 & Ht1 & Hl1 & Hp).
           specialize (Hp eq_refl).
           simpl. rewrite IH. apply Hcut with (t := t1); [assumption|lia].
        -- simpl. now rewrite IH.
      * simpl. rewrite IH. now apply Hcut with (t := t).
    + simpl. now rewrite IH.
Qed.

(** A replacement that returns each match unchanged changes nothing. *)
Lemma sub_unchanged r repl s :
  (forall m, In (Mat m) (scan r 0 s 0) -> repl m = m_group0 m) ->
  sub r repl s = s.
Proof.
  intros H. unfold sub.
  rewrite <- (scan_rebuild r s 0 0) at 2. simpl. f_equal.
  apply map_ext_in. intros [c|m] Hin; simpl; auto.
Qed.

(** Where no attempt succeeds, [sub] changes nothing. *)
Lemma sub_no_match r repl s :
  (forall a t j ma, s = a ++ t -> try_at r j t ma = None) ->
  sub r repl s = s.
Proof.
  intros H. apply sub_unchanged. intros m Hin.
  destruct (scan_mat _ _ _ _ _ Hin) as (a & t & j & ma & E & Ht).
  rewrite (H _ _ j ma E) in Ht. discriminate.
Qed.

(** A character of the result comes from a replacement or was left
    alone. *)
Lemma sub_in r repl s x :
  In x (sub r repl s) ->
  (exists m, In (Mat m) (scan r 0 s 0) /\ In x (repl m))
  \/ In (Chr x) (scan r 0 s 0).
Proof.
  unfold sub. intros H. apply in_concat in H as (l & Hl & Hx).
  apply in_map_iff in Hl as ([c|m] & <- & Hp); simpl in Hx.
  - destruct Hx as [->|[]]. now right.
  - left. now exists m.
Qed.

(** [re.search] succeeds exactly when an attempt on some suffix does. *)
Lemma search_from_sound r m : forall s i,
  search_from r i s = Some m ->
  exists a t, s = a ++ t /\ try_at r (i + List.length a) t false = Some m.
Proof.
  induction s as [|c s IH]; intros i H; simpl in H.
  - destruct (try_at r i [] false) eqn:E; [|discriminate].
    injection H as ->. exists [], []. simpl. now rewrite Nat.add_0_r.
  - destruct (try_at r i (c :: s) false) eqn:E.
    + injection H as ->. exists [], (c :: s). simpl. now rewrite Nat.add_0_r.
    + destruct (IH _ H) as (a & t & -> & Ht).
      exists (c :: a), t. simpl. now rewrite Nat.add_succ_r.
Qed.

Lemma search_from_complete r : forall a t i,
  try_at r (i + List.length a) t false <> None ->
  search_from r i (a ++ t) <> None.
Proof.
  induction a as [|c a IH]; intros t i H; simpl in *.
  - rewrite Nat.add_0_r in H.
    destruct t; simpl; destruct (try_at r i _ false);
      try discriminate; contradiction.
  - destruct (try_at r i (c :: a ++ t) false); [discriminate|].
    apply IH. now rewrite Nat.add_succ_r in H.
Qed.

(** ** The article container *)

Lemma forallb_any (l : pystr) : forallb any l = true.
Proof. induction l; simpl; auto. Qed.

(** Inversion of [matches], one lemma per constructor, so that a
    pattern is taken apart without its literals being unfolded. *)
Lemma matches_seq_inv r1 r2 st st' :
  matches (Seq r1 r2) st st' ->
  exists st1, matches r1 st st1 /\ matches r2 st1 st'.
Proof. inversion 1; subst; eauto. Qed.

Lemma matches_alt_inv r1 r2 st st' :
  matches (Alt r1 r2) st st' -> matches r1 st st' \/ matches r2 st st'.
Proof. inversion 1; subst; auto. Qed.

Lemma matches_grp_inv n r st st' :
  matches (Grp n r) st st' ->
  exists st1, matches r st st1
    /\ rest st1 = rest st' /\ pos st1 = pos st'
    /\ caps st' = (n, firstn (pos st1 - pos st) (rest st)) :: caps st1.
Proof. inversion 1; subst; simpl; eauto. Qed.

Lemma matches_rep_inv g lo p st st' :
  matches (Rep g lo p) st st' ->
  exists l, rest st = l ++ rest st' /\ forallb p l = true
    /\ lo <= List.length l /\ pos st' = pos st + List.length l
    /\ caps st' = caps st.
Proof. inversion 1; subst; simpl; eauto 10. Qed.

Lemma matches_bol_inv st st' : matches Bol st st' -> st' = st /\ pos st = 0.
Proof. inversion 1; subst; auto. Qed.

Lemma matches_eol_inv st st' :
  matches Eol st st' -> st' = st /\ (rest st = [] \/ rest st = [NL]).
Proof. inversion 1; subst; auto. Qed.

Ltac inv_matches :=
  repeat match goal with
    | H : matches (lit _) _ _ |- _ =>
        apply matches_lit_inv in H; destruct H as (? & ? & ?)
    | H : matches (Seq _ _) _ _ |- _ =>
        apply matches_seq_inv in H; destruct H as (? & ? & ?)
    | H : matches (Grp _ _) _ _ |- _ =>
        apply matches_grp_inv in H; destruct H as (? & ? & ? & ? & ?)
    | H : matches (Rep _ _ _) _ _ |- _ =>
        apply matches_rep_inv in H; destruct H as (? & ? & ? & ? & ? & ?)
    | H : matches Bol _ _ |- _ =>
        apply matches_bol_inv in H; destruct H as (? & ?)
    | H : matches Eol _ _ |- _ =>
        apply matches_eol_inv in H; destruct H as (? & ?)
    end.

(** Unfold, in the goal, the text left at each intermediate state. *)
Ltac rewrite_rests :=
  repeat match goal with
    | E : rest ?y = _ |- context [rest ?y] => rewrite E
    end.

(** The segmenter's search finds an article exactly in the documents
    that hold an article region. *)
Lemma rebuild_search_article content :
  search RebuildKap2.ARTICLE content <> None <-> article_region content.
Proof.
  split.
  - intros H. destruct (search _ content) as [m|] eqn:E; [|contradiction].
    apply search_from_sound in E as (a & t & -> & Ht).
    apply try_at_sound in Ht as (st' & M & _). unfold RebuildKap2.ARTICLE in M.
    inv_matches. simpl in *. subst t. rewrite_rests.
    eexists a, _, _. reflexivity.
  - intros (a & b & c & ->). apply search_from_complete.
    eapply try_at_complete. unfold RebuildKap2.ARTICLE.
    apply M_Grp. eapply M_Seq; [apply matches_lit|].
    eapply M_Seq; [|apply matches_lit].
    apply M_Rep; [apply forallb_any|lia].
Qed.

(** The extractor's search finds an article in the same documents. *)
Lemma extract_search_article html :
  search ExtractChapterText.ARTICLE html <> None <-> article_region html.
Proof.
  split.
  - intros H. destruct (search _ html) as [m|] eqn:E; [|contradiction].
    apply search_from_sound in E as (a & t & -> & Ht).
    apply try_at_sound in Ht as (st' & M & _).
    unfold ExtractChapterText.ARTICLE in M.
    inv_matches. simpl in *. subst t. rewrite_rests.
    eexists a, _, _. reflexivity.
  - intros (a & b & c & ->). apply search_from_complete.
    eapply try_at_complete. unfold ExtractChapterText.ARTICLE.
    eapply M_Seq; [apply matches_lit|].
    eapply M_Seq; [apply M_Grp; apply M_Rep; [apply forallb_any|lia]|].
    apply matches_lit.
Qed.

(** A document shorter than the two markers holds no article region. *)
Lemma short_no_article_region html :
  List.length html < 19 -> ~ article_region html.
Proof.
  intros L (a & b & c & E). apply (f_equal (@List.length _)) in E.
  rewrite !length_app in E. simpl in E. lia.
Qed.

(** ** The segmenter: container not found *)

(** How a run of the script ends: [open] raises on a missing file, the
    script leaves through [sys.exit(1)] exactly when the file holds no
    article region, and it runs to its end otherwise. *)
Lemma rebuild_kap2_outcome w :
  match snd (RebuildKap2.rebuild_kap2 w) with
  | Finished =>
      exists content, disk w RebuildKap2.path = Some content
                      /\ article_region content
  | SysExit code =>
      code = 1%Z
      /\ exists content, disk w RebuildKap2.path = Some content
                         /\ ~ article_region content
  | FileNotFoundError => disk w RebuildKap2.path = None
  end.
Proof.
  unfold RebuildKap2.rebuild_kap2, RebuildKap2.rebuild_content.
  destruct (disk w RebuildKap2.path) as [content|]; [|reflexivity].
  destruct (search RebuildKap2.ARTICLE content) eqn:E; simpl.
  - exists content. split; [reflexivity|].
    apply rebuild_search_article. now rewrite E.
  - split; [reflexivity|]. exists content. split; [reflexivity|].
    intros R. apply rebuild_search_article in R. contradiction.
Qed.

(** C6: when the document holds no article container region, the
    segmenter prints its container-not-found message and leaves through
    [sys.exit(1)] without writing: every file on disk is as it was.  It
    is the only exit of the script: in every world a run ends by that
    exit (and then the file holds no article region), runs to its end, or
    fails to open the file. *)
Theorem C6_no_article_aborts_without_writing (w : world) (content : pystr)
  (Hfile : disk w RebuildKap2.path = Some content)
  (Hnone : ~ article_region content) :
  RebuildKap2.rebuild_kap2 w = (print (str "No article found") w, SysExit 1)
  /\ disk (fst (RebuildKap2.rebuild_kap2 w)) = disk w
  /\ disk (fst (RebuildKap2.rebuild_kap2 w)) RebuildKap2.path = Some content
  /\ (forall w',
        match snd (RebuildKap2.rebuild_kap2 w') with
        | Finished =>
            exists content', disk w' RebuildKap2.path = Some content'
                             /\ article_region content'
        | SysExit code =>
            code = 1%Z
            /\ exists content', disk w' RebuildKap2.path = Some content'
                                /\ ~ article_region content'
        | FileNotFoundError => disk w' RebuildKap2.path = None
        end).
Proof.
  assert (E : RebuildKap2.rebuild_kap2 w
              = (print (str "No article found") w, SysExit 1)).
  { unfold RebuildKap2.rebuild_kap2, RebuildKap2.rebuild_content.
    rewrite Hfile.
    destruct (search RebuildKap2.ARTICLE content) eqn:S; [|reflexivity].
    exfalso. apply Hnone. apply rebuild_search_article. now rewrite S. }
  rewrite E. simpl. repeat split; auto. apply rebuild_kap2_outcome.
Qed.

Lemma C6_no_article_aborts_without_writing_witness :
  RebuildKap2.rebuild_kap2 world_without_article
  = (print (str "No article found") world_without_article, SysExit 1)
  /\ disk (fst (RebuildKap2.rebuild_kap2 world_without_article))
     = disk world_without_article
  /\ disk (fst (RebuildKap2.rebuild_kap2 world_without_article))
       RebuildKap2.path = Some (str "<p>Hello</p>").
Proof.
  destruct (@C6_no_article_aborts_without_writing world_without_article
              (str "<p>Hello</p>")) as (H1 & H2 & H3 & _).
  - reflexivity.
  - apply short_no_article_region. simpl. lia.
  - auto.
Defined.

(** ** The text extractor *)

(** C7: on a document that holds no article container region,
    [extract_article_text] returns the empty string (the function is
    total: it raises nothing). *)
Theorem C7_no_article_empty_text (html : pystr)
  (Hnone : ~ article_region html) :
  ExtractChapterText.extract_article_text html = [].
Proof.
  unfold ExtractChapterText.extract_article_text.
  destruct (search ExtractChapterText.ARTICLE html) eqn:S; [|reflexivity].
  exfalso. apply Hnone. apply extract_search_article. now rewrite S.
Qed.

Lemma C7_no_article_empty_text_witness :
  ExtractChapterText.extract_article_text (str "<p>Hello</p>") = [].
Proof.
  apply C7_no_article_empty_text.
  apply short_no_article_region. simpl. lia.
Defined.

(** [\s+] matches wherever a whitespace character stands. *)
Lemma spaces_match c t i ma :
  isspace c = true -> try_at ExtractChapterText.SPACES i (c :: t) ma <> None.
Proof.
  intros Hc.
  apply try_at_complete_advance
    with (st' := {| pos := i + 1; rest := t; caps := [] |}).
  - apply (@M_Rep true 1 isspace [c] t i []); simpl.
    + now rewrite Hc.
    + lia.
  - simpl. lia.
Qed.

(** After the whitespace runs are collapsed no newline is left. *)
Lemma collapsed_no_newline text :
  ~ In NL (sub ExtractChapterText.SPACES (fun _ => [SP]) text).
Proof.
  intros H. apply sub_in in H as [(m & _ & [H|[]])|H].
  - discriminate.
  - apply scan_chr in H as (a & t & j & ma & _ & Ht).
    revert Ht. now apply spaces_match.
Qed.

(** The padded-newline pattern matches only on a text that holds a
    newline. *)
Lemma padded_newline_needs_newline i t ma m :
  try_at ExtractChapterText.PADDED_NEWLINE i t ma = Some m -> In NL t.
Proof.
  intros H. apply try_at_sound in H as (st' & M & _).
  unfold ExtractChapterText.PADDED_NEWLINE in M.
  inv_matches. simpl in *. subst t. rewrite_rests.
  apply in_or_app. right. now left.
Qed.

Lemma padded_newline_unchanged text :
  ~ In NL text ->
  sub ExtractChapterText.PADDED_NEWLINE (fun _ => nl) text = text.
Proof.
  intros H. apply sub_no_match. intros a t j ma E.
  destruct (try_at _ j t ma) eqn:T; [|reflexivity].
  exfalso. apply H. subst text. apply in_or_app. right.
  eapply padded_newline_needs_newline. eassumption.
Qed.

(** C10: the text [extract_article_text] returns never holds a newline:
    collapsing the whitespace runs turns every newline into a space
    before the padded-newline step runs, which then finds nothing. *)
Theorem C10_extracted_text_single_line (html : pystr) :
  ~ In NL (ExtractChapterText.extract_article_text html)
  /\ forall raw,
       sub ExtractChapterText.PADDED_NEWLINE (fun _ => nl)
         (sub ExtractChapterText.SPACES (fun _ => [SP]) raw)
       = sub ExtractChapterText.SPACES (fun _ => [SP]) raw.
Proof.
  split.
  - unfold ExtractChapterText.extract_article_text.
    destruct (search ExtractChapterText.ARTICLE html); [|simpl; tauto].
    intros H. apply strip_incl in H.
    rewrite padded_newline_unchanged in H by apply collapsed_no_newline.
    revert H. apply collapsed_no_newline.
  - intros raw. apply padded_newline_unchanged, collapsed_no_newline.
Qed.

(** ** The segmenter: stripping the outer wrappers *)

Ltac rewrite_caps :=
  repeat match goal with
    | E : caps ?y = _ |- context [caps ?y] => rewrite E
    end.

(** A turn of the loop leaves a body that is shorter. *)
Lemma wrapped_group_shorter body m :
  match_ RebuildKap2.WRAPPED body = Some m ->
  List.length (strip (group_or_empty m 1)) < List.length body.
Proof.
  unfold match_. intros H. apply try_at_sound in H as (st' & M & -> & _).
  unfold RebuildKap2.WRAPPED, RebuildKap2.INFO_BOX_OPEN in M.
  inv_matches. subst. simpl in *.
  unfold group_or_empty, group. simpl. rewrite_caps. simpl.
  eapply Nat.le_lt_trans; [apply strip_length|].
  eapply Nat.le_lt_trans; [rewrite length_firstn; apply Nat.le_min_r|].
  match goal with E : body = _ |- _ => rewrite E end.
  rewrite_rests. simpl. repeat (rewrite !length_app; simpl). lia.
Qed.

(** The loop ends: given fuel beyond the length of the body it breaks
    with a result. *)
Lemma strip_loop_terminates : forall fuel body,
  List.length body < fuel -> RebuildKap2.strip_loop fuel body <> None.
Proof.
  induction fuel as [|fuel IH]; intros body L; [lia|]. simpl.
  destruct (match_ RebuildKap2.WRAPPED body) as [m|] eqn:E; [|discriminate].
  apply IH. apply wrapped_group_shorter in E. lia.
Qed.

Lemma strip_loop_total body :
  RebuildKap2.strip_loop (S (List.length body)) body
  = Some (RebuildKap2.strip_wrappers body).
Proof.
  unfold RebuildKap2.strip_wrappers.
  destruct (RebuildKap2.strip_loop _ body) eqn:E; [reflexivity|].
  exfalso. revert E. apply strip_loop_terminates. lia.
Qed.

(** When the loop breaks, no outer wrapper is left. *)
Lemma strip_loop_exit : forall fuel body b,
  RebuildKap2.strip_loop fuel body = Some b ->
  match_ RebuildKap2.WRAPPED b = None.
Proof.
  induction fuel as [|fuel IH]; intros body b H; simpl in H; [discriminate|].
  destruct (match_ RebuildKap2.WRAPPED body) as [m|] eqn:E.
  - eapply IH; eassumption.
  - now injection H as <-.
Qed.

(** C5: on the body made of two nested info-box wrappers around [X] the
    stripping loop takes off the outer wrapper, then the inner one, finds
    no wrapper around [X] and breaks with exactly [X], whatever fuel of
    three turns or more it is given. *)
Theorem C5_nested_wrappers_collapse :
  option_map (fun m => strip (group_or_empty m 1))
    (match_ RebuildKap2.WRAPPED nested_wrappers)
  = Some (info_box_open ++ str "X</div>")
  /\ option_map (fun m => strip (group_or_empty m 1))
       (match_ RebuildKap2.WRAPPED (info_box_open ++ str "X</div>"))
     = Some (str "X")
  /\ match_ RebuildKap2.WRAPPED (str "X") = None
  /\ (forall n, RebuildKap2.strip_loop (3 + n) nested_wrappers
                = Some (str "X"))
  /\ RebuildKap2.strip_wrappers nested_wrappers = str "X"
  /\ RebuildKap2.clean_body nested_wrappers = str "X".
Proof.
  split; [vm_compute; reflexivity|].
  split; [vm_compute; reflexivity|].
  split; [vm_compute; reflexivity|].
  split; [intros n; vm_compute; reflexivity|].
  split; vm_compute; reflexivity.
Qed.

(** ** The text extractor on the sample of the specification *)

(** C3: on the sample document the extractor returns [Title Hello
    world] on one line, not the two lines of the specification: the
    newline put in for [</h2>] is collapsed with the space that replaces
    [<p>] into a single space. *)
Theorem C3_title_hello_one_line :
  ExtractChapterText.extract_article_text title_hello
  = str "Title Hello world"
  /\ ExtractChapterText.extract_article_text title_hello
     <> str "Title" ++ nl ++ str "Hello world".
Proof. split; vm_compute; [reflexivity|discriminate]. Qed.

(** ** The segmenter on whole chapters *)

(** What a heading and its body add: the body goes in one wrapper unless
    the captured tag holds [Quiz] or [h1]. *)
Lemma emit_segment_cases heading body :
  RebuildKap2.emit_segment heading body
  = heading ++ nl
    ++ (if contains (str "Quiz") heading || contains (str "h1") heading
        then body ++ nl else RebuildKap2.wrap body).
Proof.
  unfold RebuildKap2.emit_segment.
  destruct (contains (str "Quiz") heading), (contains (str "h1") heading);
    reflexivity.
Qed.

(** C1: on the chapter [one_heading] the segmenter changes the heading:
    before, the article holds the level-2 heading [<h2>Title</h2>];
    after, the heading found there has the opening of the wrapper between
    its tag and its text.  The split captures the opening tag only, so
    the text of the heading goes into the body that is wrapped. *)
Theorem C1_heading_text_altered :
  split RebuildKap2.HEADING one_heading
  = [str "<article>"; str "<h2>"; str "Title</h2><p>x</p></article>"]
  /\ RebuildKap2.rebuild_content one_heading = Some one_heading_rebuilt
  /\ article_headings one_heading = [str "<h2>Title</h2>"]
  /\ article_headings one_heading_rebuilt
     = [str "<h2>" ++ nl ++ info_box_open ++ nl ++ str "Title</h2>"]
  /\ ~ Permutation (article_headings one_heading)
         (article_headings one_heading_rebuilt).
Proof.
  split; [vm_compute; reflexivity|].
  split; [vm_compute; reflexivity|].
  split; [vm_compute; reflexivity|].
  split; [vm_compute; reflexivity|].
  intros P.
  replace (article_headings one_heading) with [str "<h2>Title</h2>"] in P
    by (vm_compute; reflexivity).
  apply Permutation_length_1_inv in P.
  vm_compute in P. discriminate.
Qed.

(** C2: a second run of the segmenter on the output of the first is not
    the identity: on [one_heading] the second output is the first one
    with another [</div>] and [</article>] after it. *)
Theorem C2_second_run_changes_output :
  RebuildKap2.rebuild_content one_heading = Some one_heading_rebuilt
  /\ RebuildKap2.rebuild_content one_heading_rebuilt
     = Some (one_heading_rebuilt ++ nl ++ str "</div>" ++ nl
             ++ str "</article>")
  /\ RebuildKap2.rebuild_content one_heading_rebuilt
     <> Some one_heading_rebuilt.
Proof.
  split; [vm_compute; reflexivity|].
  split; [vm_compute; reflexivity|].
  vm_compute. discriminate.
Qed.

(** C4: the body under a heading whose text is [Quiz] is wrapped: the
    tag captured for it is [<h2>], which holds neither [Quiz] nor [h1].
    A title written [<H1>] is wrapped too, and the body under a level-2
    tag that holds [h1] in an attribute is left raw. *)
Theorem C4_quiz_heading_is_wrapped :
  split RebuildKap2.HEADING quiz_heading
  = [str "<article>"; str "<h2>"; str "Quiz</h2><p>q</p></article>"]
  /\ RebuildKap2.rebuild_content quiz_heading
     = Some (str "<article><h2>" ++ nl
             ++ RebuildKap2.wrap (str "Quiz</h2><p>q</p></article>")
             ++ str "</article>")
  /\ RebuildKap2.emit_segment (str "<H1>") (str "Bog</H1>")
     = str "<H1>" ++ nl ++ RebuildKap2.wrap (str "Bog</H1>")
  /\ RebuildKap2.emit_segment (str "<h2 id=ch1>") (str "Z</h2>")
     = str "<h2 id=ch1>" ++ nl ++ str "Z</h2>" ++ nl.
Proof.
  split; [vm_compute; reflexivity|].
  split; [vm_compute; reflexivity|].
  split; vm_compute; reflexivity.
Qed.

(** ** The span stripper *)

(** The span pattern matches only where the opening marker stands. *)
Lemma span_needs_marker a t j ma m :
  try_at CleanGlossary.SPAN j t ma = Some m ->
  occurs CleanGlossary.SPAN_OPEN (a ++ t).
Proof.
  intros H. apply try_at_sound in H as (st' & M & _).
  unfold CleanGlossary.SPAN in M.
  inv_matches. simpl in *. subst t.
  eexists a, _. reflexivity.
Qed.

(** In a text without the marker the spans' replacement changes
    nothing. *)
Lemma span_sub_unchanged repl block :
  ~ occurs CleanGlossary.SPAN_OPEN block ->
  sub CleanGlossary.SPAN repl block = block.
Proof.
  intros H. apply sub_no_match. intros a t j ma E.
  destruct (try_at _ j t ma) eqn:T; [|reflexivity].
  exfalso. apply H. subst block. eapply span_needs_marker. eassumption.
Qed.

(** The write guard: a run that changes nothing returns [False] and
    leaves the world as it is; a run that changes the content writes it
    and returns [True]. *)
Lemma clean_file_guard filepath w content :
  disk w filepath = Some content ->
  (CleanGlossary.clean_content content = content ->
   CleanGlossary.clean_file filepath w = (w, Some false))
  /\ (CleanGlossary.clean_content content <> content ->
      CleanGlossary.clean_file filepath w
      = (write filepath (CleanGlossary.clean_content content) w, Some true)).
Proof.
  intros Hf. unfold CleanGlossary.clean_file. rewrite Hf.
  destruct (PyStr.eqb (CleanGlossary.clean_content content) content) eqn:E.
  - apply eqb_eq in E. split; [reflexivity|]. intros N. contradiction.
  - split; [|reflexivity]. intros C. apply eqb_eq in C. congruence.
Qed.

Lemma eqb_refl (a : pystr) : PyStr.eqb a a = true.
Proof. now apply eqb_eq. Qed.


(** [p in s] decides whether [p] occurs in [s]. *)
Lemma occurs_contains p s : occurs p s -> contains p s = true.
Proof.
  intros (a & c & ->). induction a as [|x a IH]; simpl.
  - assert (H := startswith_app p c).
    destruct (p ++ c); simpl; now rewrite H.
  - rewrite IH. apply orb_true_r.
Qed.

Lemma matches_of_in m ps : In (Mat m) ps -> In m (matches_of ps).
Proof.
  induction ps as [|[c|m'] ps IH]; simpl; [tauto| |].
  - intros [H|H]; [discriminate|auto].
  - intros [H|H]; [injection H as ->; now left|right; auto].
Qed.

(** A pass over blocks that hold no marker changes nothing. *)
Lemma undecorated_pass_unchanged r content :
  forallb (fun b => negb (contains CleanGlossary.SPAN_OPEN b))
    (map m_group0 (finditer r content)) = true ->
  sub r CleanGlossary.remove_legal_terms content = content.
Proof.
  intros H. apply sub_unchanged. intros m Hin.
  unfold CleanGlossary.remove_legal_terms. apply span_sub_unchanged.
  intros O. apply occurs_contains in O.
  rewrite forallb_forall in H. specialize (H (m_group0 m)).
  rewrite O in H. simpl in H. assert (false = true); [|discriminate].
  apply H. apply in_map. now apply matches_of_in.
Qed.

(** A run over a document whose blocks hold no marker replaces nothing. *)
Lemma undecorated_unchanged content :
  blocks_undecorated content = true ->
  CleanGlossary.clean_content content = content.
Proof.
  unfold blocks_undecorated, blocks. rewrite forallb_app.
  intros H. apply andb_true_iff in H as [Hp Hq].
  unfold CleanGlossary.clean_content.
  rewrite (undecorated_pass_unchanged _ _ Hp).
  now apply undecorated_pass_unchanged.
Qed.

(** C9: on the balanced four-line input [<div>], [<div>], [</div>],
    [</div>] both depth auditors end their scan with the depth counter at
    0; check_depth.py prints no heading record, and debug_file.py prints
    the four depth changes only. *)
Theorem C9_balanced_snippet_depth_zero :
  readlines balanced_snippet
  = [str "<div>" ++ nl; str "<div>" ++ nl; str "</div>" ++ nl;
     str "</div>" ++ nl]
  /\ CheckDepth.check_depth balanced_snippet = (0%Z, [])
  /\ CheckDepth.scan [str "<div>"; str "<div>"; str "</div>"; str "</div>"]
       0 0%Z = (0%Z, [])
  /\ DebugFile.debug_file balanced_snippet
     = (0%Z,
        [ {| DebugFile.line_num := 1; DebugFile.old_depth := 0;
             DebugFile.new_depth := 1; DebugFile.content := str "<div>" |};
          {| DebugFile.line_num := 2; DebugFile.old_depth := 1;
             DebugFile.new_depth := 2; DebugFile.content := str "<div>" |};
          {| DebugFile.line_num := 3; DebugFile.old_depth := 2;
             DebugFile.new_depth := 1; DebugFile.content := str "</div>" |};
          {| DebugFile.line_num := 4; DebugFile.old_depth := 1;
             DebugFile.new_depth := 0; DebugFile.content := str "</div>" |} ])
  /\ forallb (fun line => negb (has_heading line)) (readlines balanced_snippet)
     = true.
Proof. repeat split; vm_compute; reflexivity. Qed.

(* ================================================================== *)
(** * Further properties of the scripts *)
(* ================================================================== *)

(** ** The depth auditors *)

Lemma depth_after_cons line lines d :
  depth_after (line :: lines) d = depth_after lines (d + delta line)%Z.
Proof. reflexivity. Qed.

Lemma count_nonneg_zero line :
  ((0 <? opens_of line) || (0 <? closes_of line))%Z = false ->
  delta line = 0%Z.
Proof.
  unfold delta, opens_of, closes_of. intros H.
  apply orb_false_iff in H as [H1 H2].
  apply Z.ltb_ge in H1, H2. lia.
Qed.

Lemma check_depth_scan_depth : forall lines i d,
  fst (CheckDepth.scan lines i d) = depth_after lines d.
Proof.
  induction lines as [|line rest IH]; intros i d; [reflexivity|].
  rewrite depth_after_cons. simpl.
  destruct ((0 <? opens_of line) || (0 <? closes_of line))%Z eqn:B.
  - specialize (IH (S i) (d + (opens_of line - closes_of line))%Z).
    destruct (CheckDepth.scan rest (S i) _) as [d' out]. simpl in IH.
    destruct (has_heading line); simpl; exact IH.
  - rewrite (count_nonneg_zero _ B), Z.add_0_r.
    specialize (IH (S i) d).
    destruct (has_heading line); [|exact IH].
    destruct (CheckDepth.scan rest (S i) d) as [d' out]. exact IH.
Qed.

Lemma check_depth_v2_scan_depth : forall lines i d,
  fst (CheckDepthV2.scan lines i d) = depth_after lines d.
Proof.
  induction lines as [|line rest IH]; intros i d; [reflexivity|].
  rewrite depth_after_cons. simpl.
  destruct ((0 <? opens_of line) || (0 <? closes_of line))%Z eqn:B.
  - specialize (IH (S i) (d + (opens_of line - closes_of line))%Z).
    destruct (CheckDepthV2.scan rest (S i) _) as [d' out]. simpl in IH.
    destruct (CheckDepthV2.has_heading_v2 line); simpl; [exact IH|].
    destruct (negb (opens_of line =? closes_of line)%Z); [|exact IH].
    destruct ((140 <? i + 1) && (i + 1 <? 350)); exact IH.
  - rewrite (count_nonneg_zero _ B), Z.add_0_r.
    specialize (IH (S i) d).
    destruct (CheckDepthV2.has_heading_v2 line); [|exact IH].
    destruct (CheckDepthV2.scan rest (S i) d) as [d' out]. exact IH.
Qed.

Lemma debug_file_scan_depth : forall lines i d,
  fst (DebugFile.scan lines i d) = depth_after lines d.
Proof.
  induction lines as [|line rest IH]; intros i d; [reflexivity|].
  rewrite depth_after_cons. simpl.
  specialize (IH (S i) (d + (opens_of line - closes_of line))%Z).
  destruct (DebugFile.scan rest (S i) _) as [d' out]. simpl in IH.
  destruct (negb (opens_of line =? closes_of line)%Z || has_heading line);
    exact IH.
Qed.

Lemma debug_depth_scan_eq : forall lines i d,
  DebugDepth.scan lines i d = DebugFile.scan lines i d.
Proof.
  induction lines as [|line rest IH]; intros i d; [reflexivity|].
  simpl. now rewrite IH.
Qed.

(** X1: on every file the four line auditors end with the same depth:
    the sum, over the lines, of the occurrences of [<div] minus those of
    [</div>], whatever the headings and whatever rows each one prints. *)
Theorem auditors_agree_on_final_depth (file : pystr) :
  fst (CheckDepth.check_depth file) = depth_after (readlines file) 0%Z
  /\ fst (CheckDepthV2.check_depth_v2 file) = fst (CheckDepth.check_depth file)
  /\ fst (DebugFile.debug_file file) = fst (CheckDepth.check_depth file)
  /\ DebugDepth.debug_depth file = DebugFile.debug_file file.
Proof.
  unfold CheckDepth.check_depth, CheckDepthV2.check_depth_v2,
    DebugFile.debug_file, DebugDepth.debug_depth.
  rewrite check_depth_scan_depth, check_depth_v2_scan_depth,
    debug_file_scan_depth, debug_depth_scan_eq.
  auto.
Qed.

(** A literal matches exactly where the text starts with it. *)
Lemma rmatch_lit_eq : forall p k st,
  rmatch (lit p) k st
  = if startswith p (rest st)
    then k {| pos := pos st + List.length p;
              rest := skipn (List.length p) (rest st); caps := caps st |}
    else None.
Proof.
  induction p as [|a p IH]; intros k st; simpl.
  - rewrite Nat.add_0_r. now destruct st.
  - destruct st as [i s cs]. simpl. destruct s as [|b s]; [reflexivity|].
    unfold eqc at 1. rewrite N.eqb_sym.
    destruct (a =? b)%N; [|reflexivity]. simpl.
    rewrite IH. simpl. now rewrite Nat.add_succ_r.
Qed.

Lemma try_at_lit p i s :
  try_at (lit p) i s false
  = if startswith p s
    then Some {| m_start := i; m_len := List.length p;
                 m_group0 := firstn (List.length p) s; m_caps := [] |}
    else None.
Proof.
  unfold try_at. rewrite rmatch_lit_eq. simpl.
  destruct (startswith p s); [|reflexivity]. cbn [pos caps].
  now replace (i + List.length p - i) with (List.length p) by lia.
Qed.

(** [re.findall] of a literal finds as many matches as [str.count]
    counts. *)
Lemma scan_lit_count a p : forall s i skip,
  List.length (matches_of (scan (lit (a :: p)) i s skip))
  = count_from (a :: p) s skip.
Proof.
  induction s as [|c s IH]; intros i skip.
  - cbn [scan]. destruct skip; [|reflexivity].
    rewrite try_at_lit. reflexivity.
  - cbn [scan]. destruct skip as [|k]; [|apply IH].
    rewrite try_at_lit. cbn [count_from].
    destruct (startswith (a :: p) (c :: s)); cbn [m_len List.length];
      cbn [matches_of List.length Nat.pred]; now rewrite IH.
Qed.

(** On a text that ends a line, an occurrence of a text without newline
    lies within the line. *)
Lemma startswith_within_line p : forall x t,
  ~ In NL p -> startswith p (x ++ NL :: t) = true ->
  List.length p <= List.length x.
Proof.
  induction p as [|a p IH]; intros x t Hn H; simpl; [lia|].
  destruct x as [|b x]; simpl in H.
  - apply andb_true_iff in H as [E _]. apply N.eqb_eq in E.
    exfalso. apply Hn. now left.
  - apply andb_true_iff in H as [_ H]. simpl.
    apply IH in H; [lia|]. intros I. apply Hn. now right.
Qed.

Lemma startswith_long p : forall x t,
  List.length p <= List.length x -> startswith p (x ++ t) = startswith p x.
Proof.
  induction p as [|a p IH]; intros x t L; [reflexivity|].
  destruct x as [|b x]; simpl in *; [lia|].
  rewrite IH by lia. reflexivity.
Qed.

Lemma startswith_line_eq p x t :
  ~ In NL p ->
  startswith p (x ++ NL :: t) = startswith p (x ++ [NL]).
Proof.
  intros Hn.
  destruct (startswith p (x ++ NL :: t)) eqn:A.
  - assert (L := startswith_within_line _ _ _ Hn A).
    rewrite startswith_long in A by assumption.
    now rewrite startswith_long.
  - destruct (startswith p (x ++ [NL])) eqn:B; [|reflexivity].
    assert (L := startswith_within_line _ _ _ Hn B).
    rewrite startswith_long in B by assumption.
    rewrite startswith_long in A by assumption. congruence.
Qed.

(** Counting over a line and the rest of the text adds up. *)
Lemma count_from_line a p t : ~ In NL (a :: p) -> forall u skip,
  skip <= List.length u ->
  count_from (a :: p) (u ++ NL :: t) skip
  = count_from (a :: p) (u ++ [NL]) skip + count_from (a :: p) t 0.
Proof.
  intros Hn. induction u as [|c u IH]; intros skip L.
  - assert (skip = 0) by (simpl in L; lia). subst skip.
    assert (E : (a =? NL)%N = false).
    { apply N.eqb_neq. intros ->. apply Hn. now left. }
    simpl. rewrite E. reflexivity.
  - destruct skip as [|k]; [|simpl in *; apply IH; lia].
    change ((c :: u) ++ NL :: t) with (c :: (u ++ NL :: t)).
    change ((c :: u) ++ [NL]) with (c :: (u ++ [NL])).
    cbn [count_from].
    change (c :: (u ++ NL :: t)) with ((c :: u) ++ NL :: t).
    change (c :: (u ++ [NL])) with ((c :: u) ++ [NL]).
    rewrite (startswith_line_eq (a :: p) (c :: u) t Hn).
    destruct (startswith (a :: p) ((c :: u) ++ [NL])) eqn:B.
    + assert (L' := startswith_within_line (a :: p) (c :: u) [] Hn B).
      rewrite IH by (simpl in *; lia). reflexivity.
    + apply IH. lia.
Qed.

Lemma count_readlines a p : ~ In NL (a :: p) -> forall s cur,
  fold_right (fun line n => count (a :: p) line + n) 0 (readlines_from cur s)
  = count (a :: p) (rev cur ++ s).
Proof.
  intros Hn. induction s as [|c s IH]; intros cur; simpl.
  - rewrite app_nil_r. destruct cur as [|x cur]; [reflexivity|].
    simpl. lia.
  - destruct (c =? NL)%N eqn:E.
    + apply N.eqb_eq in E. subst c. simpl.
      rewrite (IH []). simpl. unfold count.
      rewrite (@count_from_line a p s Hn (rev cur) 0) by lia. reflexivity.
    + rewrite IH. simpl. now rewrite <- app_assoc.
Qed.

Lemma depth_after_counts : forall lines d,
  depth_after lines d
  = (d + Z.of_nat
           (fold_right (fun line n => count (str "<div") line + n) 0 lines)%nat
       - Z.of_nat
           (fold_right (fun line n => count (str "</div>") line + n) 0 lines)%nat)%Z.
Proof.
  induction lines as [|line lines IH]; intros d.
  - unfold depth_after. simpl. lia.
  - rewrite depth_after_cons, IH. unfold delta, opens_of, closes_of.
    cbn [fold_right]. lia.
Qed.

(** X2: the totals of check_nesting.py agree with the line auditors: on
    every file [opens] is the number of [<div] in the file, [closes] the
    number of [</div>], and [opens - closes] is the depth the line
    auditors end with. *)
Theorem nesting_totals_give_final_depth (content : pystr) :
  CheckNesting.totals content
  = (count (str "<div") content, count (str "</div>") content)
  /\ (Z.of_nat (fst (CheckNesting.totals content))
      - Z.of_nat (snd (CheckNesting.totals content)))%Z
     = fst (CheckDepth.check_depth content).
Proof.
  assert (T : CheckNesting.totals content
              = (count (str "<div") content, count (str "</div>") content)).
  { unfold CheckNesting.totals, CheckNesting.findall, finditer,
      CheckNesting.DIV_OPEN, CheckNesting.DIV_CLOSE, count.
    rewrite !length_map. f_equal; apply scan_lit_count. }
  split; [exact T|]. rewrite T. simpl fst. simpl snd.
  unfold CheckDepth.check_depth. rewrite check_depth_scan_depth.
  rewrite depth_after_counts. unfold readlines.
  rewrite (@count_readlines 60%N (tl (str "<div"))),
          (@count_readlines 60%N (tl (str "</div>"))).
  - simpl rev. simpl app. change (60%N :: tl (str "<div")) with (str "<div").
    change (60%N :: tl (str "</div>")) with (str "</div>"). lia.
  - vm_compute. intuition discriminate.
  - vm_compute. intuition discriminate.
Qed.

Lemma reported_lines_cons test line lines :
  reported_lines test (line :: lines)
  = (if test line then [0] else []) ++ map S (reported_lines test lines).
Proof.
  unfold reported_lines. cbn [List.length seq]. rewrite <- seq_shift.
  cbn [filter]. change (nth 0 (line :: lines) []) with line.
  assert (E : forall l, filter (fun j => test (nth j (line :: lines) []))
                           (map S l)
                        = map S (filter (fun j => test (nth j lines [])) l)).
  { induction l as [|x l IH]; [reflexivity|]. cbn [map filter].
    rewrite IH. change (nth (S x) (line :: lines) []) with (nth x lines []).
    now destruct (test (nth x lines [])). }
  rewrite E. now destruct (test line).
Qed.

Lemma check_depth_scan_rows : forall lines i d,
  snd (CheckDepth.scan lines i d)
  = map (fun j => {| CheckDepth.line_num := i + j + 1;
                     CheckDepth.at_depth := depth_after (firstn j lines) d;
                     CheckDepth.content := strip (nth j lines []) |})
        (reported_lines has_heading lines).
Proof.
  induction lines as [|line rest IH]; intros i d; [reflexivity|].
  rewrite reported_lines_cons, map_app, map_map.
  assert (Hrest : forall d',
    d' = (d + delta line)%Z ->
    snd (CheckDepth.scan rest (S i) d')
    = map (fun j => {| CheckDepth.line_num := i + S j + 1;
                       CheckDepth.at_depth :=
                         depth_after (firstn (S j) (line :: rest)) d;
                       CheckDepth.content := strip (nth (S j) (line :: rest) []) |})
          (reported_lines has_heading rest)).
  { intros d' ->. rewrite IH. apply map_ext. intros j.
    cbn [firstn nth]. rewrite depth_after_cons. f_equal. lia. }
  cbn [CheckDepth.scan].
  destruct ((0 <? opens_of line) || (0 <? closes_of line))%Z eqn:B.
  - specialize (Hrest (d + (opens_of line - closes_of line))%Z eq_refl).
    destruct (CheckDepth.scan rest (S i) _) as [d' out]. cbn [snd] in Hrest.
    destruct (has_heading line); cbn [snd map app]; rewrite Hrest;
      [|reflexivity].
    f_equal. f_equal. lia.
  - assert (Z : (d + delta line)%Z = d)
      by (rewrite (count_nonneg_zero _ B); lia).
    specialize (Hrest d (eq_sym Z)).
    destruct (has_heading line); cbn [map app]; [|exact Hrest].
    destruct (CheckDepth.scan rest (S i) d) as [d' out]. cbn [snd] in *.
    rewrite Hrest. f_equal. f_equal. lia.
Qed.

(** X3: check_depth.py prints one row for every line that holds a
    level 2-4 heading tag, in order and for no other line; the row gives
    the line's number, the depth summed over the lines before it (the
    line's own tags are not counted, whether or not it holds any), and
    the stripped line. *)
Theorem check_depth_rows (file : pystr) :
  snd (CheckDepth.check_depth file)
  = map (fun j =>
           {| CheckDepth.line_num := j + 1;
              CheckDepth.at_depth := depth_after (firstn j (readlines file)) 0%Z;
              CheckDepth.content := strip (nth j (readlines file) []) |})
        (reported_lines has_heading (readlines file)).
Proof.
  unfold CheckDepth.check_depth. now rewrite check_depth_scan_rows.
Qed.

Lemma debug_file_scan_rows : forall lines i d,
  snd (DebugFile.scan lines i d)
  = map (fun j => {| DebugFile.line_num := i + j + 1;
                     DebugFile.old_depth := depth_after (firstn j lines) d;
                     DebugFile.new_depth := depth_after (firstn (S j) lines) d;
                     DebugFile.content := firstn 60 (strip (nth j lines [])) |})
        (reported_lines changes_or_heading lines).
Proof.
  induction lines as [|line rest IH]; intros i d; [reflexivity|].
  rewrite reported_lines_cons, map_app, map_map.
  cbn [DebugFile.scan].
  specialize (IH (S i) (d + (opens_of line - closes_of line))%Z).
  destruct (DebugFile.scan rest (S i) _) as [d' out]. cbn [snd] in IH.
  assert (Hrest : out
    = map (fun j => {| DebugFile.line_num := i + S j + 1;
                       DebugFile.old_depth :=
                         depth_after (firstn (S j) (line :: rest)) d;
                       DebugFile.new_depth :=
                         depth_after (firstn (S (S j)) (line :: rest)) d;
                       DebugFile.content :=
                         firstn 60 (strip (nth (S j) (line :: rest) [])) |})
          (reported_lines changes_or_heading rest)).
  { rewrite IH. apply map_ext. intros j.
    cbn [firstn nth]. rewrite !depth_after_cons. f_equal. lia. }
  unfold changes_or_heading at 1.
  destruct (negb (opens_of line =? closes_of line)%Z || has_heading line);
    cbn [snd map app]; rewrite <- Hrest; [|reflexivity].
  f_equal. f_equal. lia.
Qed.

(** X4: debug_file.py (and debug_depth.py) prints one row for every line
    on which the opening and closing tags differ in number or that holds
    a heading tag, in order and for no other line; the row gives the
    depth before the line and the depth after it, and the first 60
    characters of the stripped line. *)
Theorem debug_file_rows (file : pystr) :
  snd (DebugFile.debug_file file)
  = map (fun j =>
           {| DebugFile.line_num := j + 1;
              DebugFile.old_depth := depth_after (firstn j (readlines file)) 0%Z;
              DebugFile.new_depth :=
                depth_after (firstn (S j) (readlines file)) 0%Z;
              DebugFile.content :=
                firstn 60 (strip (nth j (readlines file) [])) |})
        (reported_lines changes_or_heading (readlines file))
  /\ snd (DebugDepth.debug_depth file) = snd (DebugFile.debug_file file).
Proof.
  unfold DebugFile.debug_file, DebugDepth.debug_depth. split.
  - apply debug_file_scan_rows.
  - now rewrite debug_depth_scan_eq.
Qed.

(** ** The text extractor: whitespace *)

Lemma rep_greedy_all_spaces k : (forall st, k st = Some st) ->
  forall s i cs,
  rep_greedy isspace k i cs s
  = Some {| pos := i + lead s; rest := skipn (lead s) s; caps := cs |}.
Proof.
  intros Hk. induction s as [|c s IH]; intros i cs; simpl.
  - now rewrite Hk, Nat.add_0_r.
  - destruct (isspace c).
    + rewrite IH. now rewrite Nat.add_succ_r.
    + now rewrite Hk, Nat.add_0_r.
Qed.

Lemma try_at_spaces i c s :
  try_at ExtractChapterText.SPACES i (c :: s) false
  = if isspace c
    then Some {| m_start := i; m_len := S (lead s);
                 m_group0 := firstn (S (lead s)) (c :: s); m_caps := [] |}
    else None.
Proof.
  unfold try_at, ExtractChapterText.SPACES. cbn [rmatch rep_min pos rest caps].
  destruct (isspace c); [|reflexivity].
  rewrite rep_greedy_all_spaces by reflexivity. cbn [pos caps].
  now replace (S i + lead s - i) with (S (lead s)) by lia.
Qed.

(** Replacing every [\s+] by a space is the one-pass collapse. *)
Lemma spaces_scan_collapse : forall s i,
  List.concat (map (emit (fun _ => [SP])) (scan ExtractChapterText.SPACES i s 0))
  = collapse false s
  /\ List.concat (map (emit (fun _ => [SP]))
                    (scan ExtractChapterText.SPACES i s (lead s)))
     = collapse true s.
Proof.
  induction s as [|c s IH]; intros i.
  - split; reflexivity.
  - destruct (IH (S i)) as [IH0 IH1].
    assert (P0 : List.concat (map (emit (fun _ => [SP]))
                                (scan ExtractChapterText.SPACES i (c :: s) 0))
                 = collapse false (c :: s)).
    { cbn [scan]. rewrite try_at_spaces. cbn [collapse].
      destruct (isspace c); cbn [m_len map emit List.concat app].
      - now rewrite IH1.
      - now rewrite IH0. }
    split; [exact P0|].
    cbn [lead collapse] in *. destruct (isspace c) eqn:E.
    + cbn [scan]. exact IH1.
    + exact P0.
Qed.

Lemma sub_spaces_collapse text :
  sub ExtractChapterText.SPACES (fun _ => [SP]) text = collapse false text.
Proof. unfold sub. apply spaces_scan_collapse. Qed.

Lemma collapse_spaces : forall s b x,
  In x (collapse b s) -> isspace x = true -> x = SP.
Proof.
  induction s as [|c s IH]; intros b x H Hx; simpl in H; [contradiction|].
  destruct (isspace c) eqn:E.
  - destruct b; [eauto|]. destruct H as [<-|H]; [reflexivity|eauto].
  - destruct H as [<-|H]; [congruence|eauto].
Qed.

Lemma collapse_single_spaced : forall s,
  starts_clean (collapse true s) = true
  /\ single_spaced (collapse true s) = true
  /\ single_spaced (collapse false s) = true.
Proof.
  induction s as [|c s (IHc & IH1 & IH0)]; [repeat split|].
  cbn [collapse]. destruct (isspace c) eqn:E.
  - repeat split; auto. cbn [single_spaced]. rewrite IH1, andb_true_r.
    destruct (collapse true s) as [|h t]; [reflexivity|].
    simpl in IHc. apply negb_true_iff in IHc. now rewrite IHc, andb_false_r.
  - assert (S1 : single_spaced (c :: collapse false s) = true).
    { cbn [single_spaced]. rewrite IH0, andb_true_r.
      destruct (collapse false s); [reflexivity|]. now rewrite E. }
    repeat split; auto. simpl. now rewrite E.
Qed.

(** ** Stripping *)

Lemma lstrip_suffix : forall s, exists w, s = w ++ lstrip s.
Proof.
  induction s as [|c s [w IH]]; [now exists []|]. simpl.
  destruct (isspace c).
  - exists (c :: w). simpl. now rewrite <- IH.
  - now exists [].
Qed.

Lemma rstrip_prefix s : exists w, s = rstrip s ++ w.
Proof.
  unfold rstrip. destruct (lstrip_suffix (rev s)) as [w E].
  exists (rev w). rewrite <- rev_app_distr, <- E. now rewrite rev_involutive.
Qed.

Lemma lstrip_clean : forall s, starts_clean (lstrip s) = true.
Proof.
  induction s as [|c s IH]; [reflexivity|]. simpl.
  destruct (isspace c) eqn:E; [exact IH|]. simpl. now rewrite E.
Qed.

Lemma lstrip_fixed s : starts_clean s = true -> lstrip s = s.
Proof.
  destruct s as [|c s]; [reflexivity|]. simpl. intros H.
  apply negb_true_iff in H. now rewrite H.
Qed.

Lemma rstrip_fixed s : rstrip (rstrip s) = rstrip s.
Proof.
  unfold rstrip. rewrite rev_involutive.
  now rewrite (lstrip_fixed _ (lstrip_clean (rev s))).
Qed.

Lemma rstrip_clean s : starts_clean s = true -> starts_clean (rstrip s) = true.
Proof.
  intros H. destruct (rstrip_prefix s) as [w E].
  destruct (rstrip s) as [|c t]; [reflexivity|].
  rewrite E in H. exact H.
Qed.

(** Stripping a stripped text changes nothing. *)
Lemma strip_fixed s : strip (strip s) = strip s.
Proof.
  unfold strip.
  rewrite (lstrip_fixed _ (rstrip_clean _ (lstrip_clean s))).
  apply rstrip_fixed.
Qed.

Lemma single_spaced_app : forall a b,
  single_spaced (a ++ b) = true ->
  single_spaced a = true /\ single_spaced b = true.
Proof.
  induction a as [|x a IH]; intros b H; [now split|].
  cbn [app single_spaced] in H. apply andb_true_iff in H as [Hx H].
  destruct (IH _ H) as [Ha Hb]. split; [|exact Hb].
  cbn [single_spaced]. rewrite Ha, andb_true_r.
  destruct a as [|y a]; [reflexivity|exact Hx].
Qed.

Lemma strip_single_spaced s :
  single_spaced s = true -> single_spaced (strip s) = true.
Proof.
  intros H. unfold strip.
  destruct (lstrip_suffix s) as [w E]. rewrite E in H.
  apply single_spaced_app in H as [_ H].
  destruct (rstrip_prefix (lstrip s)) as [w' E']. rewrite E' in H.
  now apply single_spaced_app in H as [H _].
Qed.

(** X5: the text [extract_article_text] returns is normalised, whatever
    the document: stripping it again changes nothing, its only whitespace
    characters are spaces, and no two of them stand side by side. *)
Theorem extracted_text_normalised (html : pystr) :
  strip (ExtractChapterText.extract_article_text html)
  = ExtractChapterText.extract_article_text html
  /\ (forall c, In c (ExtractChapterText.extract_article_text html) ->
                isspace c = true -> c = SP)
  /\ single_spaced (ExtractChapterText.extract_article_text html) = true.
Proof.
  unfold ExtractChapterText.extract_article_text.
  destruct (search ExtractChapterText.ARTICLE html) as [m|];
    [|repeat split; simpl; tauto].
  cbv zeta.
  rewrite padded_newline_unchanged by apply collapsed_no_newline.
  rewrite sub_spaces_collapse.
  split; [apply strip_fixed|]. split.
  - intros c H. apply strip_incl in H. eapply collapse_spaces. eassumption.
  - apply strip_single_spaced. apply collapse_single_spaced.
Qed.

(** ** The segmenter: the stripping loop and the end of the article *)

(** More fuel does not change the result of the loop. *)
Lemma strip_loop_more_fuel : forall fuel body b n,
  RebuildKap2.strip_loop fuel body = Some b ->
  RebuildKap2.strip_loop (fuel + n) body = Some b.
Proof.
  induction fuel as [|fuel IH]; intros body b n H; [discriminate|].
  simpl in *. destruct (match_ RebuildKap2.WRAPPED body); [|exact H].
  now apply IH.
Qed.

Lemma strip_loop_shorter : forall fuel body b,
  RebuildKap2.strip_loop fuel body = Some b ->
  List.length b <= List.length body.
Proof.
  induction fuel as [|fuel IH]; intros body b H; [discriminate|].
  simpl in H. destruct (match_ RebuildKap2.WRAPPED body) as [m|] eqn:E.
  - apply IH in H. apply wrapped_group_shorter in E. lia.
  - injection H as <-. lia.
Qed.

(** Replacements that are no longer than what they replace do not
    lengthen the text. *)
Lemma sub_length_le r repl s :
  (forall m, In (Mat m) (scan r 0 s 0) ->
             List.length (repl m) <= List.length (m_group0 m)) ->
  List.length (sub r repl s) <= List.length s.
Proof.
  intros H. unfold sub. rewrite <- (scan_rebuild r s 0 0) at 2. simpl skipn.
  induction (scan r 0 s 0) as [|p ps IH]; [simpl; lia|].
  cbn [map List.concat]. rewrite !length_app.
  assert (Hp : List.length (emit repl p) <= List.length (emit m_group0 p)).
  { destruct p as [c|m]; simpl; [lia|]. apply H. now left. }
  assert (Hps := IH (fun m Hin => H m (or_intror Hin))). lia.
Qed.

(** X6: the loop that strips the outer info-box terminates on every
    body: with any fuel beyond the length of the body it breaks, it
    breaks on a body around which no wrapper is left, and the cleaned
    body is stripped and no longer than the body. *)
Theorem strip_loop_breaks_unwrapped (body : pystr) :
  (forall n, RebuildKap2.strip_loop (S (List.length body) + n) body
             = Some (RebuildKap2.strip_wrappers body))
  /\ match_ RebuildKap2.WRAPPED (RebuildKap2.strip_wrappers body) = None
  /\ strip (RebuildKap2.clean_body body) = RebuildKap2.clean_body body
  /\ List.length (RebuildKap2.clean_body body) <= List.length body.
Proof.
  assert (T := strip_loop_total body).
  split; [intros n; now apply strip_loop_more_fuel|].
  split; [eapply strip_loop_exit; exact T|].
  unfold RebuildKap2.clean_body. split; [apply strip_fixed|].
  etransitivity; [apply strip_length|].
  etransitivity; [apply sub_length_le; intros; simpl; lia|].
  etransitivity; [|apply (strip_length body)].
  eapply strip_loop_shorter. apply strip_loop_total.
Qed.

Lemma endswith_inv p s : endswith p s = true -> exists u, s = u ++ p.
Proof.
  unfold endswith. intros H. apply startswith_inv in H as [t E].
  exists (rev t). apply (f_equal (@rev _)) in E.
  now rewrite rev_involutive, rev_app_distr, rev_involutive in E.
Qed.

(** X7: the article the segmenter rebuilds always ends with the closing
    marker [</article>], followed by whitespace at most. *)
Theorem rebuilt_article_is_closed (article_content : pystr) :
  exists u w,
    RebuildKap2.rebuild_article article_content
    = u ++ str "</article>" ++ w
    /\ forallb isspace w = true.
Proof.
  unfold RebuildKap2.rebuild_article. cbv zeta.
  set (new_article := hd [] _ ++ RebuildKap2.segments _).
  destruct (endswith (str "</article>") new_article) eqn:E; cbn [negb].
  - apply endswith_inv in E as [u ->]. exists u, []. now rewrite app_nil_r.
  - destruct (search RebuildKap2.ARTICLE_END new_article) as [m|] eqn:S.
    + apply search_from_sound in S as (a & t & -> & Ht).
      apply try_at_sound in Ht as (st' & M & _).
      unfold RebuildKap2.ARTICLE_END in M. inv_matches. simpl in *.
      match goal with
      | E1 : t = _ :: _, E2 : rest ?x = ?l ++ rest ?y, F : forallb isspace ?l = true,
        O : rest ?y = [] \/ rest ?y = [NL] |- _ =>
          exists a, (l ++ rest y); rewrite E1, E2; split; [reflexivity|];
          rewrite forallb_app, F; destruct O as [-> | ->]; reflexivity
      end.
    + exists new_article, []. split; [now rewrite app_nil_r|reflexivity].
Qed.

(** ** The segmenter: putting the article back *)

Lemma replace_from_skip old new t : forall l,
  replace_from old new (l ++ t) (List.length l) = replace_from old new t 0.
Proof. induction l as [|c l IH]; [reflexivity|exact IH]. Qed.

Lemma replace_from_old a old new t :
  replace_from (a :: old) new ((a :: old) ++ t) 0
  = new ++ replace_from (a :: old) new t 0.
Proof.
  change ((a :: old) ++ t) with (a :: (old ++ t)). cbn [replace_from].
  change (a :: (old ++ t)) with ((a :: old) ++ t).
  rewrite startswith_app. now rewrite replace_from_skip.
Qed.

(** Replacing the placeholder in a text made of placeholders and of
    characters other than [@] puts the new text where the placeholders
    are. *)
Lemma replace_placeholder_pieces new : forall ps,
  (forall c, In (Chr c) ps -> c <> ch "@") ->
  replace RebuildKap2.placeholder new
    (List.concat (map (emit (fun _ => RebuildKap2.placeholder)) ps))
  = List.concat (map (emit (fun _ => new)) ps).
Proof.
  unfold replace. induction ps as [|p ps IH]; intros H; [reflexivity|].
  assert (IH' := IH (fun c Hin => H c (or_intror Hin))).
  destruct p as [c|m]; cbn [map emit List.concat].
  - assert (Hc : (ch "@" =? c)%N = false).
    { apply N.eqb_neq. intros E. apply (H c); [now left|now symmetry]. }
    change ([c] ++ ?l) with (c :: l).
    unfold RebuildKap2.placeholder at 1. cbn [replace_from str map
      list_ascii_of_string startswith]. fold (ch "@"). rewrite Hc.
    cbn [andb]. f_equal. exact IH'.
  - unfold RebuildKap2.placeholder at 1 2.
    change (str "@@@ARTICLE_PLACEHOLDER@@@")
      with (ch "@" :: tl (str "@@@ARTICLE_PLACEHOLDER@@@")).
    rewrite replace_from_old. f_equal. exact IH'.
Qed.

(** X8: on a document that holds no [@], the detour through the
    placeholder is a plain substitution: every article region of the
    document is replaced by the article rebuilt from the first one, and
    the text around the regions is kept as it is. *)
Theorem rebuild_replaces_every_article (content : pystr)
  (Hat : ~ In (ch "@") content) :
  RebuildKap2.rebuild_content content
  = option_map
      (fun m => sub RebuildKap2.ARTICLE_ANY
                  (fun _ => RebuildKap2.rebuild_article (group_or_empty m 1))
                  content)
      (search RebuildKap2.ARTICLE content).
Proof.
  unfold RebuildKap2.rebuild_content.
  destruct (search RebuildKap2.ARTICLE content) as [m|]; [|reflexivity].
  cbv zeta. cbn [option_map]. f_equal. unfold sub.
  apply replace_placeholder_pieces. intros c Hin E.
  apply scan_chr in Hin as (a & t & j & ma & -> & _).
  apply Hat. rewrite <- E. apply in_or_app. right. now left.
Qed.

Lemma rebuild_replaces_every_article_witness :
  RebuildKap2.rebuild_content one_heading
  = option_map
      (fun m => sub RebuildKap2.ARTICLE_ANY
                  (fun _ => RebuildKap2.rebuild_article (group_or_empty m 1))
                  one_heading)
      (search RebuildKap2.ARTICLE one_heading).
Proof.
  apply rebuild_replaces_every_article.
  vm_compute. intuition discriminate.
Defined.

(** ** Locating the article *)

(** The lazy star stops at the first place where the rest matches. *)
Lemma rep_lazy_first p k : forall s i cs x,
  rep_lazy p k i cs s = Some x ->
  exists l s', s = l ++ s' /\ forallb p l = true
    /\ k {| pos := i + List.length l; rest := s'; caps := cs |} = Some x
    /\ (forall l1 l2, l = l1 ++ l2 -> l2 <> [] ->
          k {| pos := i + List.length l1; rest := l2 ++ s'; caps := cs |}
          = None).
Proof.
  induction s as [|c s IH]; intros i cs x H; simpl in H.
  - destruct (k {| pos := i; rest := []; caps := cs |}) eqn:Hk; [|discriminate].
    exists [], []. simpl. rewrite Nat.add_0_r, Hk. repeat split; auto.
    intros l1 l2 E N. symmetry in E. apply app_eq_nil in E as [_ ->].
    contradiction.
  - destruct (k {| pos := i; rest := c :: s; caps := cs |}) eqn:Hk.
    + exists [], (c :: s). simpl. rewrite Nat.add_0_r, Hk. repeat split; auto.
      intros l1 l2 E N. symmetry in E. apply app_eq_nil in E as [_ ->].
      contradiction.
    + destruct (p c) eqn:Hp; [|discriminate].
      destruct (IH _ _ _ H) as (l & s' & -> & Hl & Hk' & Hmin).
      exists (c :: l), s'. simpl. rewrite Hp, Hl, Nat.add_succ_r.
      repeat split; auto.
      intros [|d l1] l2 E N; simpl in E.
      * subst l2. simpl. now rewrite Nat.add_0_r.
      * injection E as <- ->. simpl. rewrite Nat.add_succ_r.
        now apply Hmin.
Qed.

(** [re.search] returns the match at the first position that has one. *)
Lemma search_from_first r m : forall s i,
  search_from r i s = Some m ->
  exists a t, s = a ++ t
    /\ try_at r (i + List.length a) t false = Some m
    /\ (forall a1 a2, a = a1 ++ a2 -> a2 <> [] ->
          try_at r (i + List.length a1) (a2 ++ t) false = None).
Proof.
  induction s as [|c s IH]; intros i H; simpl in H.
  - destruct (try_at r i [] false) eqn:E; [|discriminate].
    injection H as ->. exists [], []. simpl. rewrite Nat.add_0_r.
    repeat split; auto.
    intros a1 a2 E' N. symmetry in E'. apply app_eq_nil in E' as [_ ->].
    contradiction.
  - destruct (try_at r i (c :: s) false) eqn:E.
    + injection H as ->. exists [], (c :: s). simpl. rewrite Nat.add_0_r.
      repeat split; auto.
      intros a1 a2 E' N. symmetry in E'. apply app_eq_nil in E' as [_ ->].
      contradiction.
    + destruct (IH _ H) as (a & t & -> & Ht & Hmin).
      exists (c :: a), t. simpl. rewrite Nat.add_succ_r. repeat split; auto.
      intros [|d a1] a2 E' N; simpl in E'.
      * subst a2. simpl. now rewrite Nat.add_0_r.
      * injection E' as <- ->. simpl. rewrite Nat.add_succ_r.
        now apply Hmin.
Qed.

Lemma skipn_app_length (l t : pystr) : skipn (List.length l) (l ++ t) = t.
Proof. induction l; simpl; auto. Qed.

Lemma firstn_app_length (l t : pystr) : firstn (List.length l) (l ++ t) = l.
Proof. induction l; simpl; f_equal; auto. Qed.

(** An opening literal, a lazy [.*?] and a closing literal: the match
    ends at the first closing literal after the opening one.  [kB] is
    what follows the star, given the states before and after it. *)
Lemma container_match A b0 B (kB : mstate -> cont) i s x :
  (forall st1 st2, startswith (b0 :: B) (rest st2) = true ->
                   kB st1 st2 <> None) ->
  (forall st1 st2, startswith (b0 :: B) (rest st2) = false ->
                   kB st1 st2 = None) ->
  rmatch (lit A)
    (fun st1 => rep_lazy any (kB st1) (pos st1) (caps st1) (rest st1))
    {| pos := i; rest := s; caps := [] |} = Some x ->
  exists b c,
    s = A ++ b ++ (b0 :: B) ++ c /\ ~ occurs (b0 :: B) b
    /\ kB {| pos := i + List.length A; rest := b ++ (b0 :: B) ++ c; caps := [] |}
          {| pos := i + List.length A + List.length b;
             rest := (b0 :: B) ++ c; caps := [] |} = Some x.
Proof.
  intros Hyes Hno H. rewrite rmatch_lit_eq in H. cbn [rest pos caps] in H.
  destruct (startswith A s) eqn:SA; [|discriminate].
  apply startswith_inv in SA as [s1 ->]. rewrite skipn_app_length in H.
  apply rep_lazy_first in H as (l & s' & -> & _ & Hk' & Hmin).
  destruct (startswith (b0 :: B) s') eqn:SB;
    [|rewrite Hno in Hk' by exact SB; discriminate].
  apply startswith_inv in SB as [c ->].
  exists l, c. split; [reflexivity|]. split; [|exact Hk'].
  intros (u & v & ->).
  specialize (Hmin u ((b0 :: B) ++ v)).
  rewrite <- app_assoc in Hmin.
  eapply Hyes; [|apply Hmin; [reflexivity|discriminate]].
  cbn [rest]. rewrite <- !app_assoc. apply startswith_app.
Qed.

Lemma rebuild_article_attempt i b c :
  try_at RebuildKap2.ARTICLE i
    (str "<article>" ++ b ++ str "</article>" ++ c) false <> None.
Proof.
  eapply try_at_complete. unfold RebuildKap2.ARTICLE.
  apply M_Grp. eapply M_Seq; [apply matches_lit|].
  eapply M_Seq; [|apply matches_lit].
  apply M_Rep; [apply forallb_any|lia].
Qed.

Lemma extract_article_attempt i b c :
  try_at ExtractChapterText.ARTICLE i
    (str "<article>" ++ b ++ str "</article>" ++ c) false <> None.
Proof.
  eapply try_at_complete. unfold ExtractChapterText.ARTICLE.
  eapply M_Seq; [apply matches_lit|].
  eapply M_Seq; [apply M_Grp; apply M_Rep; [apply forallb_any|lia]|].
  apply matches_lit.
Qed.

Lemma lit_cont_total p (k : cont) st :
  (forall st', k st' <> None) ->
  (startswith p (rest st) = true -> rmatch (lit p) k st <> None)
  /\ (startswith p (rest st) = false -> rmatch (lit p) k st = None).
Proof.
  intros Hk. rewrite rmatch_lit_eq.
  split; intros ->; [apply Hk|reflexivity].
Qed.

(** The container the segmenter finds. *)
Lemma rebuild_container i t m :
  try_at RebuildKap2.ARTICLE i t false = Some m ->
  exists b c,
    t = str "<article>" ++ b ++ str "</article>" ++ c
    /\ ~ occurs (str "</article>") b
    /\ m_start m = i
    /\ group_or_empty m 1 = str "<article>" ++ b ++ str "</article>".
Proof.
  unfold try_at. intros H.
  destruct (rmatch RebuildKap2.ARTICLE _ _) as [x|] eqn:E; [|discriminate].
  injection H as <-.
  set (k1 := fun st' : mstate =>
               (fun st => if false && Nat.eqb (pos st) i then None else Some st)
                 {| pos := pos st'; rest := rest st';
                    caps := (1, firstn (pos st' - i) t) :: caps st' |}).
  assert (Hk1 : forall st', k1 st' <> None) by (intros st'; discriminate).
  destruct (@container_match (str "<article>") (ch "<") (tl (str "</article>"))
              (fun _ => rmatch (lit (str "</article>")) k1) i t x)
    as (b & c & -> & Hb & Hx).
  - intros _ st2. apply (lit_cont_total (str "</article>") k1 st2 Hk1).
  - intros _ st2. apply (lit_cont_total (str "</article>") k1 st2 Hk1).
  - exact E.
  - exists b, c. split; [reflexivity|]. split; [exact Hb|].
    split; [reflexivity|].
    rewrite rmatch_lit_eq in Hx. cbn [rest pos caps] in Hx.
    change (ch "<" :: tl (str "</article>")) with (str "</article>") in Hx.
    rewrite startswith_app, skipn_app_length in Hx.
    unfold k1 in Hx. cbn [andb pos rest caps] in Hx. injection Hx as <-.
    unfold group_or_empty, group. cbn [m_caps caps lookup Nat.eqb].
    transitivity
      (firstn (List.length (str "<article>" ++ b ++ str "</article>"))
         ((str "<article>" ++ b ++ str "</article>") ++ c));
      [|apply firstn_app_length].
    f_equal.
    + rewrite !length_app. simpl. lia.
    + rewrite <- !app_assoc. reflexivity.
Qed.

(** The container the extractor finds. *)
Lemma extract_container i t m :
  try_at ExtractChapterText.ARTICLE i t false = Some m ->
  exists b c,
    t = str "<article>" ++ b ++ str "</article>" ++ c
    /\ ~ occurs (str "</article>") b
    /\ m_start m = i
    /\ group_or_empty m 1 = b.
Proof.
  unfold try_at. intros H.
  destruct (rmatch ExtractChapterText.ARTICLE _ _) as [x|] eqn:E;
    [|discriminate].
  injection H as <-.
  set (k0 := fun st : mstate =>
               if false && Nat.eqb (pos st) i then None else Some st) in *.
  assert (Hk0 : forall st', k0 st' <> None) by (intros st'; discriminate).
  destruct (@container_match (str "<article>") (ch "<") (tl (str "</article>"))
              (fun st1 st2 =>
                 rmatch (lit (str "</article>")) k0
                   {| pos := pos st2; rest := rest st2;
                      caps := (1, firstn (pos st2 - pos st1) (rest st1))
                              :: caps st2 |}) i t x)
    as (b & c & -> & Hb & Hx).
  - intros st1 st2.
    apply (lit_cont_total (str "</article>") k0
             {| pos := pos st2; rest := rest st2;
                caps := (1, firstn (pos st2 - pos st1) (rest st1))
                        :: caps st2 |} Hk0).
  - intros st1 st2.
    apply (lit_cont_total (str "</article>") k0
             {| pos := pos st2; rest := rest st2;
                caps := (1, firstn (pos st2 - pos st1) (rest st1))
                        :: caps st2 |} Hk0).
  - exact E.
  - exists b, c. split; [reflexivity|]. split; [exact Hb|].
    split; [reflexivity|].
    rewrite rmatch_lit_eq in Hx. cbn [rest pos caps] in Hx.
    change (ch "<" :: tl (str "</article>")) with (str "</article>") in Hx.
    rewrite startswith_app, skipn_app_length in Hx.
    unfold k0 in Hx. cbn [andb pos rest caps] in Hx. injection Hx as <-.
    unfold group_or_empty, group. cbn [m_caps caps lookup Nat.eqb].
    transitivity (firstn (List.length b) (b ++ str "</article>" ++ c));
      [|apply firstn_app_length].
    f_equal. lia.
Qed.

(** X9: both scripts take as the article the first container of the
    document: the text from the first [<article>] that has an
    [</article>] after it, up to the first [</article>] behind it.  No
    [<article>] stands before the container and no [</article>] inside
    it; the segmenter takes the container with its markers, the extractor
    what lies between them, and neither finds one exactly when the
    document holds no article region. *)
Theorem article_is_first_container (content : pystr) :
  match search RebuildKap2.ARTICLE content with
  | Some m =>
      exists a b c,
        content = a ++ str "<article>" ++ b ++ str "</article>" ++ c
        /\ ~ occurs (str "<article>") a
        /\ ~ occurs (str "</article>") b
        /\ m_start m = List.length a
        /\ group_or_empty m 1 = str "<article>" ++ b ++ str "</article>"
  | None => ~ article_region content
  end
  /\ match search ExtractChapterText.ARTICLE content with
     | Some m =>
         exists a b c,
           content = a ++ str "<article>" ++ b ++ str "</article>" ++ c
           /\ ~ occurs (str "<article>") a
           /\ ~ occurs (str "</article>") b
           /\ m_start m = List.length a
           /\ group_or_empty m 1 = b
     | None => ~ article_region content
     end.
Proof.
  split.
  - destruct (search RebuildKap2.ARTICLE content) as [m|] eqn:S.
    + apply search_from_first in S as (a & t & -> & Ht & Hmin).
      destruct (rebuild_container _ _ Ht) as (b & c & -> & Hb & Hs & Hg).
      exists a, b, c. repeat split; auto.
      intros (u & v & ->).
      specialize (Hmin u (str "<article>" ++ v) eq_refl).
      revert Hmin.
      replace ((str "<article>" ++ v)
               ++ str "<article>" ++ b ++ str "</article>" ++ c)
        with (str "<article>" ++ (v ++ str "<article>" ++ b)
              ++ str "</article>" ++ c)
        by (rewrite <- !app_assoc; reflexivity).
      intros Hmin. eapply rebuild_article_attempt. apply Hmin. discriminate.
    + intros R. apply rebuild_search_article in R. contradiction.
  - destruct (search ExtractChapterText.ARTICLE content) as [m|] eqn:S.
    + apply search_from_first in S as (a & t & -> & Ht & Hmin).
      destruct (extract_container _ _ Ht) as (b & c & -> & Hb & Hs & Hg).
      exists a, b, c. repeat split; auto.
      intros (u & v & ->).
      specialize (Hmin u (str "<article>" ++ v) eq_refl).
      revert Hmin.
      replace ((str "<article>" ++ v)
               ++ str "<article>" ++ b ++ str "</article>" ++ c)
        with (str "<article>" ++ (v ++ str "<article>" ++ b)
              ++ str "</article>" ++ c)
        by (rewrite <- !app_assoc; reflexivity).
      intros Hmin. eapply extract_article_attempt. apply Hmin. discriminate.
    + intros R. apply extract_search_article in R. contradiction.
Qed.

(** ** The span stripper: what a run changes *)

Lemma pieces_length_le repl : forall ps,
  (forall m, In (Mat m) ps ->
             List.length (repl m) <= List.length (m_group0 m)) ->
  List.length (List.concat (map (emit repl) ps))
  <= List.length (List.concat (map (emit m_group0) ps)).
Proof.
  induction ps as [|p ps IH]; intros Hle; [simpl; lia|].
  cbn [map List.concat]. rewrite !length_app.
  assert (Hp : List.length (emit repl p) <= List.length (emit m_group0 p)).
  { destruct p as [c|m]; simpl; [lia|]. apply Hle. now left. }
  assert (Hps := IH (fun m Hin => Hle m (or_intror Hin))). lia.
Qed.

Lemma pieces_length_lt repl : forall ps,
  (forall m, In (Mat m) ps ->
             List.length (repl m) <= List.length (m_group0 m)) ->
  (exists m, In (Mat m) ps
             /\ List.length (repl m) < List.length (m_group0 m)) ->
  List.length (List.concat (map (emit repl) ps))
  < List.length (List.concat (map (emit m_group0) ps)).
Proof.
  induction ps as [|p ps IH]; intros Hle Hlt.
  - destruct Hlt as (m & [] & _).
  - cbn [map List.concat]. rewrite !length_app.
    assert (Hp : List.length (emit repl p) <= List.length (emit m_group0 p)).
    { destruct p as [c|m]; simpl; [lia|]. apply Hle. now left. }
    assert (Hps := pieces_length_le repl ps
                     (fun m Hin => Hle m (or_intror Hin))).
    destruct Hlt as (m & [Hm|Hm] & Hl).
    + subst p. simpl in *. lia.
    + assert (List.length (List.concat (map (emit repl) ps))
              < List.length (List.concat (map (emit m_group0) ps))).
      { apply IH; [intros m' Hin; apply Hle; now right|now exists m]. }
      lia.
Qed.

(** Where one replacement is shorter than what it replaces and none is
    longer, the text gets shorter. *)
Lemma sub_length_lt r repl s :
  (forall m, In (Mat m) (scan r 0 s 0) ->
             List.length (repl m) <= List.length (m_group0 m)) ->
  (exists m, In (Mat m) (scan r 0 s 0)
             /\ List.length (repl m) < List.length (m_group0 m)) ->
  List.length (sub r repl s) < List.length s.
Proof.
  intros Hle Hlt. unfold sub.
  rewrite <- (scan_rebuild r s 0 0) at 2. simpl skipn.
  now apply pieces_length_lt.
Qed.

Lemma in_matches_of m ps : In m (matches_of ps) -> In (Mat m) ps.
Proof.
  induction ps as [|[c|m'] ps IH]; simpl; [tauto| |].
  - intros H. right. auto.
  - intros [->|H]; [now left|right; auto].
Qed.

(** A span is longer than the text it keeps. *)
Lemma span_group_shorter j t ma m :
  try_at CleanGlossary.SPAN j t ma = Some m ->
  List.length (group_or_empty m 1) < List.length (m_group0 m).
Proof.
  intros H. destruct (try_at_group0 _ _ _ _ H) as (t' & _ & L & _).
  rewrite L. apply try_at_sound in H as (st' & M & -> & _).
  unfold CleanGlossary.SPAN in M. inv_matches. subst. simpl in *.
  unfold group_or_empty, group. simpl. rewrite_caps. simpl.
  rewrite length_firstn.
  repeat match goal with E : pos _ = _ |- _ => rewrite E end.
  simpl. lia.
Qed.

Lemma span_repl_shorter block m :
  In (Mat m) (scan CleanGlossary.SPAN 0 block 0) ->
  List.length (group_or_empty m 1) < List.length (m_group0 m).
Proof.
  intros H. apply scan_mat in H as (a & t & j & ma & _ & Ht).
  eapply span_group_shorter. eassumption.
Qed.

(** The callback returns a block unchanged when it holds no span, and
    shorter when it holds one. *)
Lemma remove_legal_terms_cases m :
  match finditer CleanGlossary.SPAN (m_group0 m) with
  | [] => CleanGlossary.remove_legal_terms m = m_group0 m
  | _ :: _ => List.length (CleanGlossary.remove_legal_terms m)
              < List.length (m_group0 m)
  end.
Proof.
  unfold CleanGlossary.remove_legal_terms, finditer.
  destruct (matches_of (scan CleanGlossary.SPAN 0 (m_group0 m) 0))
    as [|m' ms] eqn:E.
  - apply sub_unchanged. intros m' Hin. apply matches_of_in in Hin.
    rewrite E in Hin. contradiction.
  - apply sub_length_lt.
    + intros m'' Hin. apply Nat.lt_le_incl.
      eapply span_repl_shorter. eassumption.
    + exists m'. assert (Hin : In (Mat m') (scan CleanGlossary.SPAN 0 (m_group0 m) 0)).
      { apply in_matches_of. rewrite E. now left. }
      split; [exact Hin|eapply span_repl_shorter; eassumption].
Qed.

Lemma remove_legal_terms_le m :
  List.length (CleanGlossary.remove_legal_terms m)
  <= List.length (m_group0 m).
Proof.
  assert (H := remove_legal_terms_cases m).
  destruct (finditer CleanGlossary.SPAN (m_group0 m)); [rewrite H|]; lia.
Qed.

Lemma concat_length_zero (A : Type) : forall l : list (list A),
  List.length (List.concat l) = 0 -> forall x, In x l -> x = [].
Proof.
  induction l as [|y l IH]; intros H x Hin; [contradiction|].
  simpl in H. rewrite length_app in H.
  destruct Hin as [<-|Hin].
  - destruct y; [reflexivity|simpl in H; lia].
  - apply IH; [lia|assumption].
Qed.

Lemma concat_length_pos (A : Type) : forall l : list (list A),
  List.length (List.concat l) <> 0 -> exists x, In x l /\ x <> [].
Proof.
  induction l as [|y l IH]; intros H; [now simpl in H|].
  simpl in H. rewrite length_app in H.
  destruct y as [|a y].
  - destruct IH as (x & Hin & Hx); [simpl in H; lia|].
    exists x. split; [now right|assumption].
  - exists (a :: y). split; [now left|discriminate].
Qed.

(** One pass: nothing changes when its blocks hold no span, and the
    document gets shorter when they hold one. *)
Lemma pass_cases r content :
  if Nat.eqb (spans_in_blocks r content) 0
  then sub r CleanGlossary.remove_legal_terms content = content
  else List.length (sub r CleanGlossary.remove_legal_terms content)
       < List.length content.
Proof.
  unfold spans_in_blocks.
  destruct (Nat.eqb _ 0) eqn:E.
  - apply Nat.eqb_eq in E. apply sub_unchanged. intros m Hin.
    assert (H := remove_legal_terms_cases m).
    rewrite (concat_length_zero _ E
               (finditer CleanGlossary.SPAN (m_group0 m))) in H; [exact H|].
    apply (in_map (fun m => finditer CleanGlossary.SPAN (m_group0 m))).
    now apply matches_of_in.
  - apply Nat.eqb_neq in E. apply concat_length_pos in E as (x & Hin & Hx).
    apply in_map_iff in Hin as (m & <- & Hm).
    apply sub_length_lt.
    + intros m' _. apply remove_legal_terms_le.
    + exists m. split; [now apply in_matches_of|].
      assert (H := remove_legal_terms_cases m).
      destruct (finditer CleanGlossary.SPAN (m_group0 m));
        [contradiction|exact H].
Qed.

Lemma pass_length_le r content :
  List.length (sub r CleanGlossary.remove_legal_terms content)
  <= List.length content.
Proof.
  apply sub_length_le. intros m _. apply remove_legal_terms_le.
Qed.

(** X10: [clean_file] returns [True] exactly when a run strips at least
    one decorated span inside a podcast or quiz block; then the document
    it writes is strictly shorter than the one it read.  When no span is
    stripped the content is unchanged and nothing is written. *)
Theorem clean_file_true_iff_span_stripped (w : world)
  (filepath content : pystr) (Hfile : disk w filepath = Some content) :
  snd (CleanGlossary.clean_file filepath w)
  = Some (negb (Nat.eqb (stripped_spans content) 0))
  /\ if Nat.eqb (stripped_spans content) 0
     then CleanGlossary.clean_content content = content
          /\ fst (CleanGlossary.clean_file filepath w) = w
     else List.length (CleanGlossary.clean_content content)
          < List.length content
          /\ fst (CleanGlossary.clean_file filepath w)
             = write filepath (CleanGlossary.clean_content content) w.
Proof.
  assert (Hcases :
    if Nat.eqb (stripped_spans content) 0
    then CleanGlossary.clean_content content = content
    else List.length (CleanGlossary.clean_content content)
         < List.length content).
  { unfold stripped_spans, CleanGlossary.clean_content.
    assert (P := pass_cases CleanGlossary.PODCAST content).
    assert (Q := pass_cases CleanGlossary.QUIZ
                   (sub CleanGlossary.PODCAST
                      CleanGlossary.remove_legal_terms content)).
    assert (Pl := pass_length_le CleanGlossary.PODCAST content).
    assert (Ql := pass_length_le CleanGlossary.QUIZ
                    (sub CleanGlossary.PODCAST
                       CleanGlossary.remove_legal_terms content)).
    destruct (spans_in_blocks CleanGlossary.PODCAST content) as [|n1];
      destruct (spans_in_blocks CleanGlossary.QUIZ _) as [|n2];
      simpl in *; try lia.
    now rewrite Q. }
  destruct (clean_file_guard filepath w Hfile) as [Hsame Hdiff].
  destruct (Nat.eqb (stripped_spans content) 0).
  - rewrite (Hsame Hcases). auto.
  - assert (N : CleanGlossary.clean_content content <> content).
    { intros E. rewrite E in Hcases. lia. }
    rewrite (Hdiff N). auto.
Qed.

Lemma clean_file_true_iff_span_stripped_witness :
  snd (CleanGlossary.clean_file kapitel1 (world_with kapitel1 decorated_chapter))
  = Some true.
Proof.
  destruct (@clean_file_true_iff_span_stripped
              (world_with kapitel1 decorated_chapter) kapitel1
              decorated_chapter) as [H _].
  - reflexivity.
  - exact H.
Defined.

(** ** The batch of the span stripper *)

Lemma step_disk w i p :
  disk (CleanGlossaryMain.step w i) p
  = if PyStr.eqb p (CleanGlossaryMain.filename i)
    then option_map CleanGlossary.clean_content (disk w p)
    else disk w p.
Proof.
  unfold CleanGlossaryMain.step. cbv zeta.
  destruct (PyStr.eqb p (CleanGlossaryMain.filename i)) eqn:Ep.
  - apply eqb_eq in Ep. subst p.
    destruct (disk w (CleanGlossaryMain.filename i)) as [content|] eqn:D;
      [|now rewrite D].
    unfold CleanGlossary.clean_file. rewrite D.
    destruct (PyStr.eqb (CleanGlossary.clean_content content) content) eqn:E;
      cbn [negb print write disk option_map].
    + apply eqb_eq in E. now rewrite D, E.
    + now rewrite eqb_refl.
  - destruct (disk w (CleanGlossaryMain.filename i)) as [content|] eqn:D;
      [|reflexivity].
    unfold CleanGlossary.clean_file. rewrite D.
    destruct (PyStr.eqb (CleanGlossary.clean_content content) content);
      cbn [negb print write disk]; [reflexivity|now rewrite Ep].
Qed.

Lemma step_stdout w i :
  List.length (stdout (CleanGlossaryMain.step w i))
  = List.length (stdout w)
    + (if exists_file w (CleanGlossaryMain.filename i) then 1 else 0).
Proof.
  unfold CleanGlossaryMain.step, exists_file. cbv zeta.
  destruct (disk w (CleanGlossaryMain.filename i)) as [content|] eqn:D;
    [|lia].
  unfold CleanGlossary.clean_file. rewrite D.
  destruct (PyStr.eqb (CleanGlossary.clean_content content) content);
    cbn [negb print write stdout]; rewrite length_app; reflexivity.
Qed.

Lemma step_exists w i p :
  exists_file (CleanGlossaryMain.step w i) p = exists_file w p.
Proof.
  unfold exists_file. rewrite step_disk.
  destruct (PyStr.eqb p (CleanGlossaryMain.filename i)); [|reflexivity].
  now destruct (disk w p).
Qed.

Lemma batch_disk : forall l w p,
  NoDup (map CleanGlossaryMain.filename l) ->
  disk (fold_left CleanGlossaryMain.step l w) p
  = if existsb (PyStr.eqb p) (map CleanGlossaryMain.filename l)
    then option_map CleanGlossary.clean_content (disk w p)
    else disk w p.
Proof.
  induction l as [|i l IH]; intros w p N; [reflexivity|].
  cbn [fold_left map existsb]. inversion N as [|x xs Hnot N']; subst.
  rewrite IH by assumption. rewrite step_disk.
  destruct (PyStr.eqb p (CleanGlossaryMain.filename i)) eqn:Ep;
    [|reflexivity].
  apply eqb_eq in Ep. subst p. cbn [orb].
  destruct (existsb _ _) eqn:Ex; [|reflexivity].
  exfalso. apply Hnot. apply existsb_exists in Ex as (y & Hy & E).
  apply eqb_eq in E. now subst y.
Qed.

Lemma batch_stdout : forall l w,
  List.length (stdout (fold_left CleanGlossaryMain.step l w))
  = List.length (stdout w)
    + List.length
        (filter (fun i => exists_file w (CleanGlossaryMain.filename i)) l).
Proof.
  induction l as [|i l IH]; intros w; [simpl; lia|].
  cbn [fold_left filter]. rewrite IH, step_stdout.
  rewrite (filter_ext _ (fun j => exists_file w (CleanGlossaryMain.filename j)))
    by (intros j; apply step_exists).
  destruct (exists_file w (CleanGlossaryMain.filename i)); simpl; lia.
Qed.

(** X11: the batch of clean_glossary.py cleans the eight chapter files
    and nothing else: after it every file named kapitel1.html to
    kapitel8.html that existed holds the cleaned content of what it held,
    every other path is as it was (a missing chapter is not created), and
    one line has been printed for each chapter that exists. *)
Theorem batch_cleans_the_chapters (w : world) :
  (forall p,
     disk (CleanGlossaryMain.main w) p
     = if existsb (PyStr.eqb p) (map CleanGlossaryMain.filename (seq 1 8))
       then option_map CleanGlossary.clean_content (disk w p)
       else disk w p)
  /\ List.length (stdout (CleanGlossaryMain.main w))
     = List.length (stdout w)
       + List.length
           (filter (fun i => exists_file w (CleanGlossaryMain.filename i))
              (seq 1 8)).
Proof.
  split.
  - intros p. apply batch_disk.
    vm_compute. repeat constructor; simpl; intuition discriminate.
  - apply batch_stdout.
Qed.

(** ** fix_html *)

Lemma in_order_prefix hs a s : in_order hs s -> in_order hs (a ++ s).
Proof.
  intros H. destruct H as [s|h hs a' t H]; [constructor|].
  rewrite app_assoc. now constructor.
Qed.

Lemma in_order_suffix z : forall hs s, in_order hs s -> in_order hs (s ++ z).
Proof.
  induction 1 as [s|h hs a t H IH]; [constructor|].
  rewrite <- !app_assoc. now constructor.
Qed.

Lemma fix_html_loop article_content : forall hs last_pos new_article,
  exists tail,
    snd (FixHtml.loop article_content hs last_pos new_article)
    = new_article ++ tail
    /\ in_order (map FixHtml.heading_line hs) tail.
Proof.
  induction hs as [|h hs IH]; intros last_pos new_article.
  - exists []. split; [now rewrite app_nil_r|constructor].
  - cbn [FixHtml.loop map].
    destruct (IH (FixHtml.m_end h)
                ((new_article
                  ++ FixHtml.between_block
                       (FixHtml.clean_between
                          (strip (FixHtml.slice article_content last_pos
                                    (m_start h)))))
                 ++ FixHtml.heading_line h)) as (tail & E & O).
    eexists. split; [rewrite E, <- !app_assoc; reflexivity|].
    now constructor.
Qed.

(** X12: [fix_html] returns the text [Article not found] in place of a
    document when the document holds no article region.  Otherwise it
    returns an article between [<article>] and [</article>] in which
    every level 2-4 heading element of the container stands verbatim on a
    line of its own, after 16 spaces, in the order of the document. *)
Theorem fix_html_keeps_headings (content : pystr) :
  match search FixHtml.ARTICLE content with
  | None =>
      ~ article_region content
      /\ FixHtml.fix_html content = str "Article not found"
  | Some m =>
      exists body,
        FixHtml.fix_html content
        = str "<article>" ++ nl ++ body ++ FixHtml.spaces 12
          ++ str "</article>"
        /\ in_order
             (map (fun h => FixHtml.spaces 16 ++ h ++ nl)
                (FixKap1.headings (FixHtml.stripped_article m)))
             body
  end.
Proof.
  unfold FixHtml.fix_html.
  destruct (search FixHtml.ARTICLE content) as [m|] eqn:S.
  - cbv zeta. unfold FixKap1.headings. rewrite map_map.
    change (fun x : match_obj => FixHtml.spaces 16 ++ m_group0 x ++ nl)
      with FixHtml.heading_line.
    set (ac := FixHtml.stripped_article m).
    set (hs := finditer FixKap1.HEADING_ELEMENT ac).
    set (open_ := str "<article>" ++ nl).
    set (close_ := FixHtml.spaces 12 ++ str "</article>").
    assert (Hfin : forall body0 lp,
      in_order (map FixHtml.heading_line hs) body0 ->
      exists body,
        (if FixHtml.has_content
              (strip (FixHtml.slice ac lp (List.length ac)))
         then (open_ ++ body0) ++ FixHtml.spaces 16 ++ FixHtml.INFO_BOX
              ++ nl ++ FixHtml.spaces 20
              ++ replace (str "</article>") []
                   (strip (FixHtml.slice ac lp (List.length ac)))
              ++ nl ++ FixHtml.spaces 16 ++ str "</div>" ++ nl
         else open_ ++ body0) ++ close_
        = str "<article>" ++ nl ++ body ++ close_
        /\ in_order (map FixHtml.heading_line hs) body).
    { intros body0 lp O. unfold open_.
      destruct (FixHtml.has_content _).
      - exists (body0 ++ FixHtml.spaces 16 ++ FixHtml.INFO_BOX
                ++ nl ++ FixHtml.spaces 20
                ++ replace (str "</article>") []
                     (strip (FixHtml.slice ac lp (List.length ac)))
                ++ nl ++ FixHtml.spaces 16 ++ str "</div>" ++ nl).
        split; [now rewrite <- !app_assoc|now apply in_order_suffix].
      - exists body0. split; [now rewrite <- !app_assoc|exact O]. }
    destruct (search FixHtml.PREFIX ac) as [pm|].
    + destruct (fix_html_loop ac hs (FixHtml.m_end pm)
                  (open_ ++ group_or_empty pm 1 ++ nl))
        as (tail & E & O).
      destruct (FixHtml.loop ac hs _ _) as [lp na]. cbn [snd] in E. subst na.
      replace ((open_ ++ group_or_empty pm 1 ++ nl) ++ tail)
        with (open_ ++ (group_or_empty pm 1 ++ nl) ++ tail)
        by (now rewrite <- !app_assoc).
      apply Hfin. now apply in_order_prefix.
    + destruct (fix_html_loop ac hs 0 open_) as (tail & E & O).
      destruct (FixHtml.loop ac hs _ _) as [lp na]. cbn [snd] in E. subst na.
      now apply Hfin.
  - split; [|reflexivity].
    intros R. apply rebuild_search_article in R. apply R. exact S.
Qed.

(** ** The segmenter: the split *)

(** Where the whole pattern is group 1, the group is the match. *)
Lemma try_at_whole_group r i s ma m :
  try_at (Grp 1 r) i s ma = Some m -> group_or_empty m 1 = m_group0 m.
Proof.
  intros H. apply try_at_sound in H as (st' & M & -> & _).
  apply matches_grp_inv in M as (st1 & _ & _ & P & C).
  unfold group_or_empty, group. cbn [m_caps m_group0 pos rest] in *.
  rewrite C. cbn [lookup Nat.eqb]. now rewrite P.
Qed.

Lemma split_pieces_concat : forall ps cur,
  (forall m, In (Mat m) ps -> group_or_empty m 1 = m_group0 m) ->
  List.concat (split_pieces cur ps)
  = rev cur ++ List.concat (map (emit m_group0) ps).
Proof.
  induction ps as [|[c|m] ps IH]; intros cur H; cbn [split_pieces map emit].
  - simpl. now rewrite !app_nil_r.
  - rewrite IH by (intros m Hin; apply H; now right).
    cbn [rev List.concat]. now rewrite <- !app_assoc.
  - cbn [List.concat]. rewrite IH by (intros m' Hin; apply H; now right).
    rewrite (H m) by now left. reflexivity.
Qed.

Lemma split_pieces_length : forall ps cur,
  List.length (split_pieces cur ps) = S (2 * List.length (matches_of ps)).
Proof.
  induction ps as [|[c|m] ps IH]; intros cur; cbn [split_pieces matches_of].
  - reflexivity.
  - apply IH.
  - cbn [List.length]. rewrite IH. lia.
Qed.

(** X13: the split of the article by heading tags loses nothing and
    never leaves a heading without a body: the parts put together again
    are the article, and there is one part more than twice the number of
    heading tags found (the text before the first tag, then a tag and a
    body for each). *)
Theorem split_by_headings_is_lossless (article_content : pystr) :
  List.concat (split RebuildKap2.HEADING article_content) = article_content
  /\ List.length (split RebuildKap2.HEADING article_content)
     = S (2 * List.length (finditer RebuildKap2.HEADING article_content)).
Proof.
  unfold split, finditer. split; [|apply split_pieces_length].
  rewrite split_pieces_concat.
  - simpl rev. simpl app. apply (scan_rebuild _ article_content 0 0).
  - intros m Hin. apply scan_mat in Hin as (a & t & j & ma & _ & Ht).
    unfold RebuildKap2.HEADING in Ht. eapply try_at_whole_group. exact Ht.
Qed.

(** ** The span stripper: the second run *)




